(** * HL7AutoCT: the field codec, the message assembler and the projector

    A shallow embedding of [hl7v2_parser.py] (field decoder, message
    splitter, message assembler, tabular projector) and of the display
    renderer of [generate_hl7v2_specification.py], followed by the
    properties of these functions.

    Conventions of the embedding.
    - A Python [str] is a [string]; a character is a code point below 256.
    - A Python object is a [pyval]: [None], a [bool], an [int], a [str] or a
      [list] of objects.  Floats and dictionaries used as field values are
      outside the embedding.
    - A Python [dict] is an association list in insertion order, the order
      in which Python iterates over it.
    - A call that may raise has an [outcome]: [Returns v] or [Raises e]. *)

From Stdlib Require Import String Ascii List Bool Arith ZArith Lia.
From Stdlib Require Import DecimalString DecimalNat DecimalZ.
Import ListNotations.
Open Scope list_scope.
Open Scope string_scope.

Set Warnings "-register-all".

(** ** Python values and exceptions *)

Inductive pyval : Type :=
| PNone
| PBool (b : bool)
| PInt (z : Z)
| PStr (s : string)
| PList (items : list pyval).

Inductive exn : Type :=
| IndexError
| AttributeError.

Inductive outcome (A : Type) : Type :=
| Returns (a : A)
| Raises (e : exn).

Arguments Returns {A} a.
Arguments Raises {A} e.

Definition bind {A B : Type} (m : outcome A) (k : A -> outcome B) : outcome B :=
  match m with
  | Returns a => k a
  | Raises e => Raises e
  end.

Notation "x <- m ;; k" := (bind m (fun x => k))
  (at level 61, m at next level, right associativity).

(** [l[i]] for a non-negative index. *)
Definition py_index {A : Type} (l : list A) (i : nat) : outcome A :=
  match nth_error l i with
  | Some x => Returns x
  | None => Raises IndexError
  end.

(** [for x in xs: ...] over a body that may raise. *)
Fixpoint for_each {A S : Type} (body : S -> A -> outcome S) (xs : list A) (st : S)
  : outcome S :=
  match xs with
  | [] => Returns st
  | x :: rest => st' <- body st x ;; for_each body rest st'
  end.

(** ** Python string operations *)

(** [c in s] for a one-character [c]. *)
Fixpoint str_contains (c : ascii) (s : string) : bool :=
  match s with
  | EmptyString => false
  | String a rest => Ascii.eqb a c || str_contains c rest
  end.

(** Splitting at every character that satisfies [p]: [re.split] on an
    alternation of single characters, and [str.split] on one character. *)
Fixpoint split_on (p : ascii -> bool) (s : string) : list string :=
  match s with
  | EmptyString => [EmptyString]
  | String a rest =>
      if p a then EmptyString :: split_on p rest
      else match split_on p rest with
           | piece :: pieces => String a piece :: pieces
           | [] => [String a EmptyString]
           end
  end.

(** No character of [s] satisfies [p]. *)
Fixpoint none_of (p : ascii -> bool) (s : string) : bool :=
  match s with
  | EmptyString => true
  | String a rest => negb (p a) && none_of p rest
  end.

(** [s.split(c)] *)
Definition str_split (c : ascii) (s : string) : list string :=
  split_on (Ascii.eqb c) s.

(** [sep.join(l)] *)
Definition str_join (sep : string) (l : list string) : string :=
  String.concat sep l.

(** [str.isspace] on one character (code points below 256). *)
Definition is_space (c : ascii) : bool :=
  let n := nat_of_ascii c in
  (((9 <=? n) && (n <=? 13)) || ((28 <=? n) && (n <=? 32))
   || (n =? 133) || (n =? 160))%nat.

Fixpoint lstrip (s : string) : string :=
  match s with
  | EmptyString => EmptyString
  | String a rest => if is_space a then lstrip rest else s
  end.

Fixpoint rstrip (s : string) : string :=
  match s with
  | EmptyString => EmptyString
  | String a rest =>
      match rstrip rest with
      | EmptyString => if is_space a then EmptyString else String a EmptyString
      | kept => String a kept
      end
  end.

(** [s.strip()] *)
Definition strip (s : string) : string := rstrip (lstrip s).

(** Every character of [s] is white space; so is the empty string. *)
Fixpoint all_space (s : string) : bool :=
  match s with
  | EmptyString => true
  | String a rest => is_space a && all_space rest
  end.

(** [s.startswith(p)] *)
Definition startswith (s p : string) : bool := String.prefix p s.

(** [pat in s]: the text [pat] occurs in [s]. *)
Fixpoint occurs (pat s : string) : bool :=
  String.prefix pat s ||
  match s with
  | EmptyString => false
  | String _ rest => occurs pat rest
  end.

(** [s.endswith(p)] *)
Fixpoint endswith (s p : string) : bool :=
  String.eqb s p ||
  match s with
  | EmptyString => false
  | String _ rest => endswith rest p
  end.

(** [not s] for a string. *)
Definition is_empty (s : string) : bool :=
  match s with
  | EmptyString => true
  | String _ _ => false
  end.

Definition newline : string := String "010" EmptyString.

(** [re.split] on a pattern that is a literal, non-empty text: the text is
    cut at its leftmost occurrences that do not overlap.  [skip] counts the
    characters of the current occurrence that remain to be passed over. *)
Fixpoint split_literal_go (pat : string) (skip : nat) (s : string) : list string :=
  match s with
  | EmptyString => [EmptyString]
  | String a rest =>
      match skip with
      | S k => split_literal_go pat k rest
      | O =>
          if String.prefix pat s
          then EmptyString :: split_literal_go pat (String.length pat - 1) rest
          else match split_literal_go pat 0 rest with
               | piece :: pieces => String a piece :: pieces
               | [] => [String a EmptyString]
               end
      end
  end.

Definition re_split_literal (pat s : string) : list string :=
  split_literal_go pat 0 s.

(** [str(n)] for a natural number and for an integer. *)
Definition str_of_nat (n : nat) : string :=
  NilEmpty.string_of_uint (Nat.to_uint n).

Definition str_of_Z (z : Z) : string :=
  NilEmpty.string_of_int (Z.to_int z).

(** ** Dictionaries *)

Section Dict.
Context {V : Type}.

(** [d.get(k)] *)
Fixpoint dict_get (k : string) (d : list (string * V)) : option V :=
  match d with
  | [] => None
  | (k', v) :: rest => if String.eqb k' k then Some v else dict_get k rest
  end.

(** [d[k] = v]: an existing key keeps its place, a new key goes last. *)
Fixpoint dict_set (k : string) (v : V) (d : list (string * V)) : list (string * V) :=
  match d with
  | [] => [(k, v)]
  | (k', v') :: rest =>
      if String.eqb k' k then (k', v) :: rest else (k', v') :: dict_set k v rest
  end.

(** [d.keys()] *)
Definition dict_keys (d : list (string * V)) : list string := map fst d.
End Dict.

(** [d[k]] on a [defaultdict(list)], read only. *)
Definition dict_list {A : Type} (k : string) (d : list (string * list A)) : list A :=
  match dict_get k d with
  | Some l => l
  | None => []
  end.

(** [d[k].append(x)] on a [defaultdict(list)]. *)
Definition dict_append {A : Type} (k : string) (x : A) (d : list (string * list A))
  : list (string * list A) :=
  match dict_get k d with
  | Some l => dict_set k (l ++ [x])%list d
  | None => dict_set k [x] d
  end.

(** ** [str], [repr] and [json.dumps] *)

Definition hex_digit (n : nat) : ascii :=
  nth n (list_ascii_of_string "0123456789abcdef") "0"%char.

Definition hex2 (c : ascii) : string :=
  let n := nat_of_ascii c in
  String (hex_digit (n / 16)) (String (hex_digit (n mod 16)) EmptyString).

Fixpoint flat_map_str (f : ascii -> string) (s : string) : string :=
  match s with
  | EmptyString => EmptyString
  | String a rest => f a ++ flat_map_str f rest
  end.

Definition double_quote : ascii := "034".
Definition single_quote : ascii := "039".
Definition backslash : ascii := "092".

(** [str.isprintable] on one character. *)
Definition is_printable (c : ascii) : bool :=
  let n := nat_of_ascii c in
  (((32 <=? n) && (n <=? 126)) || ((161 <=? n) && negb (n =? 173)))%nat.

Definition repr_char (quote c : ascii) : string :=
  if Ascii.eqb c quote || Ascii.eqb c backslash then String backslash (String c EmptyString)
  else if Ascii.eqb c "009" then "\t"
  else if Ascii.eqb c "010" then "\n"
  else if Ascii.eqb c "013" then "\r"
  else if is_printable c then String c EmptyString
  else "\x" ++ hex2 c.

(** [repr(s)] *)
Definition repr_str (s : string) : string :=
  let quote :=
    if str_contains single_quote s && negb (str_contains double_quote s)
    then double_quote else single_quote in
  String quote (flat_map_str (repr_char quote) s ++ String quote EmptyString).

Fixpoint py_repr (v : pyval) : string :=
  match v with
  | PNone => "None"
  | PBool true => "True"
  | PBool false => "False"
  | PInt z => str_of_Z z
  | PStr s => repr_str s
  | PList items => "[" ++ str_join ", " (map py_repr items) ++ "]"
  end.

(** [str(v)] *)
Definition py_str (v : pyval) : string :=
  match v with
  | PStr s => s
  | _ => py_repr v
  end.

Definition json_escape_char (c : ascii) : string :=
  if Ascii.eqb c double_quote || Ascii.eqb c backslash then String backslash (String c EmptyString)
  else if Ascii.eqb c "008" then "\b"
  else if Ascii.eqb c "012" then "\f"
  else if Ascii.eqb c "010" then "\n"
  else if Ascii.eqb c "013" then "\r"
  else if Ascii.eqb c "009" then "\t"
  else if ((32 <=? nat_of_ascii c) && (nat_of_ascii c <=? 126))%nat then String c EmptyString
  else "\u00" ++ hex2 c.

(** [json.dumps(v)] with its default settings. *)
Fixpoint json_dumps (v : pyval) : string :=
  match v with
  | PNone => "null"
  | PBool true => "true"
  | PBool false => "false"
  | PInt z => str_of_Z z
  | PStr s =>
      String double_quote (flat_map_str json_escape_char s ++ String double_quote EmptyString)
  | PList items => "[" ++ str_join ", " (map json_dumps items) ++ "]"
  end.

(** ** [json.loads] on plain texts

    [json.loads] restricted to the texts made of arrays, integers without
    fraction or exponent, strings without escapes and the literals [true],
    [false] and [null].  [None] stands for a raised exception.  Fractions,
    exponents, escapes and objects are outside this fragment: the functions
    of the program take [json.loads] as a parameter, and this instance
    serves the examples. *)

Inductive json_token : Type :=
| TOpen
| TClose
| TComma
| TValue (v : pyval).

Definition is_digit (c : ascii) : bool :=
  ((48 <=? nat_of_ascii c) && (nat_of_ascii c <=? 57))%nat.

Definition is_json_space (c : ascii) : bool :=
  Ascii.eqb c " " || Ascii.eqb c "009" || Ascii.eqb c "010" || Ascii.eqb c "013".

Fixpoint digits_value (acc : Z) (digits : string) : Z :=
  match digits with
  | EmptyString => acc
  | String a rest => digits_value (10 * acc + Z.of_nat (nat_of_ascii a - 48)) rest
  end.

(** Where the lexer is: between tokens, after a minus sign, in the digits
    of an integer, in a string, or in a literal of which [remaining] is
    still to come. *)
Inductive lex_state : Type :=
| LexIdle
| LexMinus
| LexInt (negative : bool) (digits : string)
| LexStr (body : string)
| LexWord (remaining : string) (v : pyval).

Inductive lex_action : Type :=
| Skip
| Emit (tok : json_token)
| Enter (st : lex_state)
| Reject.

(** What a character does between tokens. *)
Definition lex_idle (a : ascii) : lex_action :=
  if is_json_space a then Skip
  else if Ascii.eqb a "[" then Emit TOpen
  else if Ascii.eqb a "]" then Emit TClose
  else if Ascii.eqb a "," then Emit TComma
  else if Ascii.eqb a double_quote then Enter (LexStr EmptyString)
  else if Ascii.eqb a "-" then Enter LexMinus
  else if is_digit a then Enter (LexInt false (String a EmptyString))
  else if Ascii.eqb a "t" then Enter (LexWord "rue" (PBool true))
  else if Ascii.eqb a "f" then Enter (LexWord "alse" (PBool false))
  else if Ascii.eqb a "n" then Enter (LexWord "ull" PNone)
  else Reject.

Definition int_token (negative : bool) (digits : string) : json_token :=
  TValue (PInt (if negative then - digits_value 0 digits else digits_value 0 digits)).

(** The tokens of a text.  An integer is [0] or starts with another digit;
    a string has no escape and no control character. *)
Fixpoint json_lex (st : lex_state) (s : string) : option (list json_token) :=
  match s with
  | EmptyString =>
      match st with
      | LexIdle => Some []
      | LexInt negative digits => Some [int_token negative digits]
      | _ => None
      end
  | String a rest =>
      let idle (before : list json_token) :=
        match lex_idle a with
        | Skip => option_map (app before) (json_lex LexIdle rest)
        | Emit tok => option_map (app (before ++ [tok])%list) (json_lex LexIdle rest)
        | Enter st' => option_map (app before) (json_lex st' rest)
        | Reject => None
        end in
      match st with
      | LexIdle => idle []
      | LexMinus =>
          if is_digit a then json_lex (LexInt true (String a EmptyString)) rest else None
      | LexInt negative digits =>
          if is_digit a then
            if String.eqb digits "0" then None
            else json_lex (LexInt negative (digits ++ String a EmptyString)) rest
          else idle [int_token negative digits]
      | LexStr body =>
          if Ascii.eqb a double_quote
          then option_map (cons (TValue (PStr body))) (json_lex LexIdle rest)
          else if Ascii.eqb a backslash || (nat_of_ascii a <? 32)%nat then None
          else json_lex (LexStr (body ++ String a EmptyString)) rest
      | LexWord remaining v =>
          match remaining with
          | String c more =>
              if Ascii.eqb a c then
                match more with
                | EmptyString => option_map (cons (TValue v)) (json_lex LexIdle rest)
                | _ => json_lex (LexWord more v) rest
                end
              else None
          | EmptyString => None
          end
      end
  end.

Inductive json_state : Type :=
| WantValue
| WantValueOrClose
| WantSeparator
| Finished (v : pyval).

(** A finished value goes to the array being built, or ends the text. *)
Definition json_place (v : pyval) (stack : list (list pyval))
  : list (list pyval) * json_state :=
  match stack with
  | [] => ([], Finished v)
  | top :: below => ((v :: top) :: below, WantSeparator)
  end.

(** [stack] holds the arrays that are open, each with its elements in
    reverse. *)
Fixpoint json_parse (tokens : list json_token) (stack : list (list pyval))
         (state : json_state) : option pyval :=
  match tokens with
  | [] => match state with Finished v => Some v | _ => None end
  | tok :: rest =>
      match tok, state with
      | TOpen, (WantValue | WantValueOrClose) =>
          json_parse rest ([] :: stack) WantValueOrClose
      | TValue v, (WantValue | WantValueOrClose) =>
          json_parse rest (fst (json_place v stack)) (snd (json_place v stack))
      | TComma, WantSeparator => json_parse rest stack WantValue
      | TClose, (WantSeparator | WantValueOrClose) =>
          match stack with
          | top :: below =>
              json_parse rest (fst (json_place (PList (rev top)) below))
                         (snd (json_place (PList (rev top)) below))
          | [] => None
          end
      | _, _ => None
      end
  end.

Definition json_loads_plain (s : string) : option pyval :=
  match json_lex LexIdle s with
  | Some tokens => json_parse tokens [] WantValue
  | None => None
  end.

(** ** hl7v2_parser.py *)

Module hl7v2_parser.

Definition HL7_SPLIT_PATTERN : string := "MSH|".

Definition getSegments (msg : string) : list string :=
  split_on (fun c => Ascii.eqb c "013" || Ascii.eqb c "010") (strip msg).

(** The body of the loop over [components]. *)
Definition parse_component (comp : string) : pyval :=
  if str_contains "&" comp
  then PList (map PStr (str_split "&" comp))
  else PStr comp.

(** [comp_list] after the loop over [rep.split('^')]. *)
Definition parse_components (rep : string) : list pyval :=
  map parse_component (str_split "^" rep).

Definition parse_field (field : string) : outcome pyval :=
  let repetitions := str_split "~" field in
  if (List.length repetitions =? 1)%nat then
    rep0 <- py_index repetitions 0 ;;
    let comp_list := parse_components rep0 in
    if (1 <? List.length comp_list)%nat then Returns (PList comp_list)
    else py_index comp_list 0
  else
    Returns (PList (map (fun rep => PList (parse_components rep)) repetitions)).

(** [seg_data]: the fields of one segment line, by position key. *)
Definition segment : Type := list (string * pyval).

(** What a message holds under a segment name: the [dict] of the only
    occurrence, or the [list] of the occurrences. *)
Inductive entry : Type :=
| One (seg : segment)
| Many (segs : list segment).

Definition message : Type := list (string * entry).

(** [for i, field in enumerate(fields, start=i): ...] *)
Fixpoint store_fields (fields : list string) (i : nat) (seg_data : segment)
  : outcome segment :=
  match fields with
  | [] => Returns seg_data
  | field :: rest =>
      if is_empty field then store_fields rest (S i) seg_data
      else
        value <- parse_field field ;;
        store_fields rest (S i) (dict_set (str_of_nat i) value seg_data)
  end.

(** The body of the loop over [segments] for a line that is not blank,
    up to the name and the [seg_data] it appends. *)
Definition parse_segment (line : string) : outcome (string * segment) :=
  let parts := str_split "|" (strip line) in
  seg_name <- py_index parts 0 ;;
  if String.eqb seg_name "MSH" then
    encoding <- py_index parts 1 ;;
    let seg_data := dict_set "2" (PStr encoding) (dict_set "1" (PStr "|") []) in
    seg_data' <- store_fields (skipn 2 parts) 3 seg_data ;;
    Returns (seg_name, seg_data')
  else
    seg_data' <- store_fields (skipn 1 parts) 1 [] ;;
    Returns (seg_name, seg_data').

Definition assemble_line (result : list (string * list segment)) (line : string)
  : outcome (list (string * list segment)) :=
  if is_empty (strip line) then Returns result
  else
    named <- parse_segment line ;;
    Returns (dict_append (fst named) (snd named) result).

(** [result[key] = result[key][0]] when [len(result[key]) == 1]. *)
Definition collapse (occurrences : list segment) : entry :=
  match occurrences with
  | [seg] => One seg
  | _ => Many occurrences
  end.

(** The assembler over the segment lines of a message. *)
Definition assemble (lines : list string) : outcome message :=
  result <- for_each assemble_line lines [] ;;
  Returns (map (fun kv => (fst kv, collapse (snd kv))) result).

Definition hl7_to_custom_json (HL7Message : string) : outcome message :=
  assemble (getSegments HL7Message).

Definition split_hl7_messages (raw_data : string) : list string :=
  let chunks := re_split_literal HL7_SPLIT_PATTERN (strip raw_data) in
  map (fun chunk => if startswith chunk "MSH|" then chunk else "MSH|" ++ chunk)
      (filter (fun chunk => negb (is_empty (strip chunk))) chunks).

Fixpoint map_outcome {A B : Type} (f : A -> outcome B) (l : list A) : outcome (list B) :=
  match l with
  | [] => Returns []
  | x :: rest => y <- f x ;; ys <- map_outcome f rest ;; Returns (y :: ys)
  end.

Definition parse_multiple_hl7_messages (raw_data : string) : outcome (list message) :=
  map_outcome hl7_to_custom_json (split_hl7_messages raw_data).

Definition serialize_field (value : pyval) : pyval :=
  match value with
  | PList _ => PStr (json_dumps value)
  | _ => value
  end.

Definition row : Type := list (string * pyval).

(** [msg.get("MSH", {}).get("10", "")]: a [list] has no [get]. *)
Definition message_id_of (msg : message) : outcome pyval :=
  match dict_get "MSH" msg with
  | None => Returns (PStr "")
  | Some (One seg) =>
      match dict_get "10" seg with
      | Some value => Returns value
      | None => Returns (PStr "")
      end
  | Some (Many _) => Raises AttributeError
  end.

(** The row of one occurrence. *)
Definition make_row (message_id : pyval) (name : string) (seg : segment) : row :=
  fold_left
    (fun r kv => dict_set (name ++ "-" ++ fst kv) (serialize_field (snd kv)) r)
    seg [("message_control_id", message_id)].

(** The body of [for segment, entries in msg.items()]. *)
Definition project_segment (schema : list string) (message_id : pyval)
           (tables : list (string * list row)) (item : string * entry)
  : list (string * list row) :=
  let name := fst item in
  if negb (existsb (String.eqb name) schema) then tables
  else
    let entries := match snd item with One seg => [seg] | Many segs => segs end in
    fold_left (fun t seg => dict_append name (make_row message_id name seg) t)
              entries tables.

(** The body of [for msg in parsed_messages]. *)
Definition project_message (schema : list string) (tables : list (string * list row))
           (msg : message) : outcome (list (string * list row)) :=
  message_id <- message_id_of msg ;;
  Returns (fold_left (project_segment schema message_id) msg tables).

(** [schema] is the list of the segment names the schema has as keys. *)
Definition convert_to_parquet_tables (parsed_messages : list message)
           (schema : list string) : outcome (list (string * list row)) :=
  for_each (project_message schema) parsed_messages [].

End hl7v2_parser.

(** ** generate_hl7v2_specification.py *)

Module generate_hl7v2_specification.

(** [item != ""] *)
Definition not_empty_str (v : pyval) : bool :=
  match v with
  | PStr s => negb (is_empty s)
  | _ => true
  end.

(** [str(x) if x != "" else ""] *)
Definition text_of (v : pyval) : string :=
  if not_empty_str v then py_str v else "".

Definition looks_like_json_array (value : string) : bool :=
  startswith (strip value) "[" && endswith (strip value) "]".

Section Flatten.

(** [json.loads]; [None] stands for a raised exception. *)
Variable json_loads : string -> option pyval.

(** An element of an element of the value. *)
Definition flatten_subitem (subitem : pyval) : string :=
  match subitem with
  | PList triple => str_join "&" (map text_of triple)
  | _ => text_of subitem
  end.

(** An element of the value. *)
Definition flatten_item (item : pyval) : string :=
  match item with
  | PList subitems => str_join "&" (map flatten_subitem subitems)
  | _ => text_of item
  end.

(** [flatten_value] from its test [isinstance(value, list)] on. *)
Definition flatten_object (value : pyval) : string :=
  match value with
  | PList items => str_join "^" (map flatten_item items)
  | _ => text_of value
  end.

Definition flatten_value (value : pyval) : string :=
  match value with
  | PStr s =>
      if looks_like_json_array s then
        match json_loads s with
        | Some parsed => flatten_object parsed
        | None => s
        end
      else s
  | _ => flatten_object value
  end.

Definition format_value_list (value_list : pyval) : string :=
  let values :=
    match value_list with
    | PList l => l
    | PNone => []
    | other => [other]
    end in
  str_join ", " (filter (fun flattened => negb (is_empty flattened))
                        (map flatten_value values)).

End Flatten.

End generate_hl7v2_specification.

Import hl7v2_parser generate_hl7v2_specification.

(** ** Notions the properties are stated with *)

(** The [seg_data] of the lines named [name], in the order of the lines:
    the occurrences of a segment name in the input. *)
Definition occurrences (name : string) (lines : list string) : list segment :=
  flat_map
    (fun line =>
       if is_empty (strip line) then []
       else match parse_segment line with
            | Returns named => if String.eqb (fst named) name then [snd named] else []
            | Raises _ => []
            end)
    lines.

(** The header segment does not occur twice or more in the message. *)
Definition single_header (msg : message) : bool :=
  match dict_get "MSH" msg with
  | Some (Many _) => false
  | _ => true
  end.

(** Every row of every table satisfies [Q]. *)
Definition all_rows (Q : row -> Prop) (tables : list (string * list row)) : Prop :=
  forall name rows, dict_get name tables = Some rows -> Forall Q rows.

(** The names that have a table satisfy [P]. *)
Definition all_names (P : string -> Prop) (tables : list (string * list row)) : Prop :=
  forall name, dict_get name tables <> None -> P name.

(** ** Further notions

    The strings at the leaves of a value, the replacement of a character,
    and the rows a message gives to a table. *)

Fixpoint leaves (v : pyval) : list string :=
  match v with
  | PStr s => [s]
  | PList items => flat_map leaves items
  | _ => []
  end.

(** [s.replace(c, d)] for one-character [c] and [d]. *)
Fixpoint replace_char (c d : ascii) (s : string) : string :=
  match s with
  | EmptyString => EmptyString
  | String a rest => String (if Ascii.eqb a c then d else a) (replace_char c d rest)
  end.

(** [s[n:]] *)
Fixpoint str_drop (n : nat) (s : string) : string :=
  match n, s with
  | S k, String _ rest => str_drop k rest
  | _, _ => s
  end.

(** The segments a message holds under a name, as a list. *)
Definition entries_of (name : string) (msg : message) : list segment :=
  match dict_get name msg with
  | Some (One seg) => [seg]
  | Some (Many segs) => segs
  | None => []
  end.

(** The rows a message gives to the table of [name]. *)
Definition rows_of (schema : list string) (name : string) (msg : message) : list row :=
  match message_id_of msg with
  | Returns message_id =>
      if existsb (String.eqb name) schema
      then map (make_row message_id name) (entries_of name msg)
      else []
  | Raises _ => []
  end.

(** ** export_mirth_xml_js_code.py *)

Module export_mirth_xml_js_code.

(** The loop of [extract_javascript_from_template]: [js_lines] from the
    lines that remain, [capture] being the flag of the loop. *)
Fixpoint extract_loop (capture : bool) (lines : list string) : list string :=
  match lines with
  | [] => []
  | line :: rest =>
      if occurs "// START_JAVASCRIPT_CODE" line then extract_loop true rest
      else if occurs "// END_JAVASCRIPT_CODE" line then extract_loop false rest
      else if capture then line :: extract_loop capture rest
      else extract_loop capture rest
  end.

Definition extract_javascript_from_template (template_content : string) : string :=
  str_join newline (extract_loop false (str_split "010" template_content)).

(** The loop of [replace_javascript_in_template]: [result_lines]. *)
Fixpoint replace_loop (new_js_code : string) (capture : bool) (lines : list string)
  : list string :=
  match lines with
  | [] => []
  | line :: rest =>
      if occurs "// START_JAVASCRIPT_CODE" line
      then line :: new_js_code :: replace_loop new_js_code true rest
      else if occurs "// END_JAVASCRIPT_CODE" line
      then line :: replace_loop new_js_code false rest
      else if capture then replace_loop new_js_code capture rest
      else line :: replace_loop new_js_code capture rest
  end.

Definition replace_javascript_in_template (template_content new_js_code : string)
  : string :=
  str_join newline (replace_loop new_js_code false (str_split "010" template_content)).

(** [s * n] *)
Fixpoint repeat_str (s : string) (n : nat) : string :=
  match n with
  | O => EmptyString
  | S k => s ++ repeat_str s k
  end.

(** The loop of [indent_js_code]: [indented_lines]; [base_indent] is 1. *)
Fixpoint indent_loop (indent_level : Z) (lines : list string) : list string :=
  match lines with
  | [] => []
  | line :: rest =>
      let stripped := strip line in
      if is_empty stripped then EmptyString :: indent_loop indent_level rest
      else if startswith stripped "//" then
        (repeat_str "  " (Z.to_nat (1 + indent_level)) ++ stripped)
          :: indent_loop indent_level rest
      else
        let level :=
          if startswith stripped "}" then Z.max 0 (indent_level - 1) else indent_level in
        (repeat_str "  " (Z.to_nat (1 + level)) ++ stripped)
          :: indent_loop (if endswith stripped "{" then (level + 1)%Z else level) rest
  end.

(** [result.replace("'", "&apos;")] *)
Definition escape_apostrophes (s : string) : string :=
  flat_map_str (fun c => if Ascii.eqb c single_quote then "&apos;" else String c EmptyString) s.

Definition indent_js_code (js_code : string) : string :=
  escape_apostrophes (str_join newline (indent_loop 0 (str_split "010" js_code))).

End export_mirth_xml_js_code.

Import export_mirth_xml_js_code.

(** ** generate_mirth_js_code.py *)

Module generate_mirth_js_code.

(** What a call of [get_canonical_js_code] does: it returns the code, or
    raises [ValueError] (the unpacking of the split) or [IndexError]. *)
Inductive js_code_outcome : Type :=
| JsCode (code : string)
| JsValueError
| JsIndexError.

Definition get_canonical_js_code (field_id : string) : js_code_outcome :=
  match str_split "-" field_id with
  | [segment; path] =>
      let parts := str_split "." path in
      match nth_error parts 0 with
      | None => JsIndexError
      | Some field =>
          let sub :=
            if (1 <? List.length parts)%nat then nth_error parts 1 else Some "1" in
          match sub with
          | None => JsIndexError
          | Some sub =>
              JsCode ("tmp['" ++ segment ++ "']['" ++ segment ++ "." ++ field
                      ++ "']['" ++ segment ++ "." ++ field ++ "." ++ sub ++ "']")
          end
      end
  | _ => JsValueError
  end.

End generate_mirth_js_code.

Import generate_mirth_js_code.

(** The number of occurrences of a character. *)
Fixpoint count_char (c : ascii) (s : string) : nat :=
  match s with
  | EmptyString => O
  | String a rest => (if Ascii.eqb a c then 1 else 0) + count_char c rest
  end.

(** * Properties *)

(** ** Strings *)

Lemma split_on_not_nil (p : ascii -> bool) (s : string) : split_on p s <> [].
Proof.
  destruct s as [|a rest]; simpl; [discriminate|].
  destruct (p a); [discriminate|].
  destruct (split_on p rest); discriminate.
Qed.

Lemma split_on_cons (p : ascii -> bool) (s : string) :
  exists piece pieces, split_on p s = piece :: pieces.
Proof.
  destruct (split_on p s) as [|piece pieces] eqn:E.
  - now apply split_on_not_nil in E.
  - now exists piece, pieces.
Qed.

Lemma none_of_contains (c : ascii) (s : string) :
  none_of (Ascii.eqb c) s = negb (str_contains c s).
Proof.
  induction s as [|a rest IH]; simpl; [reflexivity|].
  rewrite IH, negb_orb, (Ascii.eqb_sym c a). reflexivity.
Qed.

Lemma split_on_none (p : ascii -> bool) (s : string) :
  none_of p s = true -> split_on p s = [s].
Proof.
  induction s as [|a rest IH]; simpl; [reflexivity|].
  intros H. apply andb_true_iff in H as [Ha Hrest].
  apply negb_true_iff in Ha. rewrite Ha, (IH Hrest). reflexivity.
Qed.

Lemma split_on_some (p : ascii -> bool) (s : string) :
  none_of p s = false -> (2 <= List.length (split_on p s))%nat.
Proof.
  induction s as [|a rest IH]; simpl; [discriminate|].
  destruct (p a) eqn:Ha; simpl.
  - intros _. destruct (split_on_cons p rest) as (x & xs & E). rewrite E. simpl. lia.
  - intros H. specialize (IH H).
    destruct (split_on p rest) as [|x xs]; simpl in *; lia.
Qed.

Lemma split_on_pieces (p : ascii -> bool) (s : string) :
  Forall (fun piece => none_of p piece = true) (split_on p s).
Proof.
  induction s as [|a rest IH]; simpl.
  - repeat constructor.
  - destruct (p a) eqn:Ha.
    + constructor; [reflexivity|assumption].
    + destruct (split_on p rest) as [|x xs].
      * constructor; [simpl; now rewrite Ha|constructor].
      * inversion IH; subst. constructor; [simpl; now rewrite Ha|assumption].
Qed.

Lemma str_split_none (c : ascii) (s : string) :
  str_contains c s = false -> str_split c s = [s].
Proof.
  intros H. apply split_on_none. rewrite none_of_contains, H. reflexivity.
Qed.

Lemma str_split_some (c : ascii) (s : string) :
  str_contains c s = true -> (2 <= List.length (str_split c s))%nat.
Proof.
  intros H. apply split_on_some. rewrite none_of_contains, H. reflexivity.
Qed.

Lemma str_split_pieces (c : ascii) (s piece : string) :
  In piece (str_split c s) -> str_contains c piece = false.
Proof.
  intros H. pose proof (split_on_pieces (Ascii.eqb c) s) as F.
  rewrite Forall_forall in F. specialize (F _ H).
  rewrite none_of_contains in F. now apply negb_true_iff in F.
Qed.

(** Joining the pieces with the separator gives the text back. *)
Lemma join_split (c : ascii) (s : string) :
  str_join (String c EmptyString) (str_split c s) = s.
Proof.
  unfold str_join, str_split.
  induction s as [|a rest IH]; simpl; [reflexivity|].
  destruct (Ascii.eqb c a) eqn:E.
  - apply Ascii.eqb_eq in E. subst a.
    destruct (split_on_cons (Ascii.eqb c) rest) as (x & xs & Hx).
    rewrite Hx in *. simpl. f_equal. exact IH.
  - destruct (split_on (Ascii.eqb c) rest) as [|x xs]; simpl in *.
    + now subst rest.
    + destruct xs; simpl in *; now rewrite <- IH.
Qed.

(** ** The field decoder *)

Section Decoder.

Lemma parse_components_length (rep : string) :
  List.length (parse_components rep) = List.length (str_split "^" rep).
Proof. unfold parse_components. apply length_map. Qed.

(** A field without repetition separator takes the first branch. *)
Lemma parse_field_single (field : string) :
  str_contains "~" field = false ->
  parse_field field =
    if (1 <? List.length (parse_components field))%nat
    then Returns (PList (parse_components field))
    else py_index (parse_components field) 0.
Proof.
  intros H. unfold parse_field. rewrite (str_split_none _ _ H). reflexivity.
Qed.

(** A field with a repetition separator takes the second branch. *)
Lemma parse_field_repeated (field : string) :
  str_contains "~" field = true ->
  parse_field field =
    Returns (PList (map (fun rep => PList (parse_components rep))
                        (str_split "~" field))).
Proof.
  intros H. unfold parse_field.
  pose proof (str_split_some _ _ H) as L.
  destruct (Nat.eqb_spec (List.length (str_split "~" field)) 1) as [E|_]; [lia|].
  reflexivity.
Qed.

Lemma parse_field_with_components (field : string) :
  str_contains "~" field = false ->
  str_contains "^" field = true ->
  parse_field field = Returns (PList (parse_components field)).
Proof.
  intros Hr Hc. rewrite (parse_field_single _ Hr), parse_components_length.
  pose proof (str_split_some _ _ Hc) as L.
  destruct (Nat.ltb_spec 1 (List.length (str_split "^" field))); [reflexivity|lia].
Qed.

Lemma parse_field_one_component (field : string) :
  str_contains "~" field = false ->
  str_contains "^" field = false ->
  parse_field field = Returns (parse_component field)
  /\ parse_components field = [parse_component field].
Proof.
  intros Hr Hc. rewrite (parse_field_single _ Hr).
  unfold parse_components. rewrite (str_split_none _ _ Hc). now simpl.
Qed.

Lemma parse_field_returns (field : string) :
  exists value, parse_field field = Returns value.
Proof.
  destruct (str_contains "~" field) eqn:Hr.
  - eexists. now apply parse_field_repeated.
  - destruct (str_contains "^" field) eqn:Hc.
    + eexists. now apply parse_field_with_components.
    + eexists. now apply parse_field_one_component.
Qed.

Lemma parse_field_plain (field : string) :
  str_contains "~" field = false ->
  str_contains "^" field = false ->
  str_contains "&" field = false ->
  parse_field field = Returns (PStr field).
Proof.
  intros Hr Hc Hs.
  destruct (parse_field_one_component _ Hr Hc) as [E _].
  rewrite E. unfold parse_component. now rewrite Hs.
Qed.

End Decoder.

(** C6, as the claim states it, fails: the field ["LN&GLU"] splits into a
    single repetition and a single component, and it decodes to the list of
    the sub-components of that component, not to the bare scalar of its
    text. *)
Lemma parse_field_single_component_not_scalar :
  str_split "~" "LN&GLU" = ["LN&GLU"]
  /\ str_split "^" "LN&GLU" = ["LN&GLU"]
  /\ parse_field "LN&GLU" = Returns (PList [PStr "LN"; PStr "GLU"])
  /\ parse_field "LN&GLU" <> Returns (PStr "LN&GLU").
Proof.
  repeat (split; [reflexivity|]). discriminate.
Qed.

(** C6, amended.  The field decoder returns a value on every string and
    never raises; the empty string decodes to the scalar [""]; a field
    whose split yields a single component decodes to that component alone:
    to the bare scalar of its text, as ["HospitalA"] does, when the
    component has no sub-component separator, and to the list of its
    sub-components when it has one.  No field decodes to a list of one
    element. *)
Theorem parse_field_total_and_collapsing :
  (forall field, exists value, parse_field field = Returns value)
  /\ parse_field "" = Returns (PStr "")
  /\ parse_field "HospitalA" = Returns (PStr "HospitalA")
  /\ (forall field,
         str_contains "~" field = false ->
         str_contains "^" field = false ->
         parse_field field = Returns (parse_component field)
         /\ (str_contains "&" field = false ->
             parse_field field = Returns (PStr field))
         /\ (str_contains "&" field = true ->
             parse_field field = Returns (PList (map PStr (str_split "&" field)))))
  /\ (forall field one, parse_field field <> Returns (PList [one])).
Proof.
  split; [exact parse_field_returns|].
  split; [reflexivity|].
  split; [reflexivity|].
  split.
  - intros field Hr Hc.
    destruct (parse_field_one_component _ Hr Hc) as [E _].
    split; [exact E|]. rewrite E. unfold parse_component.
    split; intros Hs; now rewrite Hs.
  - intros field one H.
    destruct (str_contains "~" field) eqn:Hr.
    { rewrite (parse_field_repeated _ Hr) in H. injection H as H.
      apply (f_equal (@List.length pyval)) in H. rewrite length_map in H.
      pose proof (str_split_some _ _ Hr). simpl in H. lia. }
    destruct (str_contains "^" field) eqn:Hc.
    { rewrite (parse_field_with_components _ Hr Hc) in H. injection H as H.
      apply (f_equal (@List.length pyval)) in H. rewrite parse_components_length in H.
      pose proof (str_split_some _ _ Hc). simpl in H. lia. }
    destruct (parse_field_one_component _ Hr Hc) as [E _].
    rewrite E in H. unfold parse_component in H.
    destruct (str_contains "&" field) eqn:Hs; [|discriminate].
    injection H as H.
    apply (f_equal (@List.length pyval)) in H. rewrite length_map in H.
    pose proof (str_split_some _ _ Hs). simpl in H. lia.
Qed.

Lemma parse_field_total_and_collapsing_witness :
  (exists value, parse_field "ICU^101~ER" = Returns value)
  /\ parse_field "Ward 7" = Returns (PStr "Ward 7")
  /\ parse_field "LN&GLU&1234" = Returns (PList [PStr "LN"; PStr "GLU"; PStr "1234"]).
Proof.
  destruct parse_field_total_and_collapsing as (Htotal & _ & _ & Hone & _).
  split; [apply Htotal|]. split.
  - apply (proj1 (proj2 (Hone "Ward 7" eq_refl eq_refl))). reflexivity.
  - apply (proj2 (proj2 (Hone "LN&GLU&1234" eq_refl eq_refl))). reflexivity.
Defined.

(** C2, as the claim states it, fails: the field ["A~B"] has a repetition
    separator, its chunks ["A"] and ["B"] decode on their own to bare
    scalars, and yet the decoded repetitions are the one-element lists
    [["A"]] and [["B"]]. *)
Lemma parse_field_repetition_not_collapsed :
  str_contains "~" "A~B" = true
  /\ str_split "~" "A~B" = ["A"; "B"]
  /\ parse_field "A" = Returns (PStr "A")
  /\ parse_field "B" = Returns (PStr "B")
  /\ parse_field "A~B" = Returns (PList [PList [PStr "A"]; PList [PStr "B"]])
  /\ ~ (exists reps,
           parse_field "A~B" = Returns (PList reps)
           /\ map (@Returns pyval) reps = map parse_field (str_split "~" "A~B")).
Proof.
  repeat (split; [reflexivity|]).
  intros (reps & Hdec & Heach).
  vm_compute in Hdec. injection Hdec as <-.
  vm_compute in Heach. discriminate.
Qed.

(** C2, amended.  A field with a repetition separator decodes to the list
    of its repetitions, in order, which has two elements or more and is
    never collapsed; each repetition is the list of the components of its
    chunk, with no collapse inside a repetition: it is the chunk decoded on
    its own when the chunk has a component separator, and the one-element
    list holding the chunk decoded on its own when it has none. *)
Theorem parse_field_repetitions (field : string) :
  str_contains "~" field = true ->
  let chunks := str_split "~" field in
  parse_field field
    = Returns (PList (map (fun chunk => PList (parse_components chunk)) chunks))
  /\ (2 <= List.length chunks)%nat
  /\ (forall chunk, In chunk chunks ->
        (str_contains "^" chunk = true ->
           parse_field chunk = Returns (PList (parse_components chunk)))
        /\ (str_contains "^" chunk = false ->
              exists value, parse_field chunk = Returns value
                            /\ parse_components chunk = [value])).
Proof.
  intros H chunks.
  split; [now apply parse_field_repeated|].
  split; [now apply str_split_some|].
  intros chunk Hin. apply str_split_pieces in Hin.
  split; intros Hc.
  - now apply parse_field_with_components.
  - exists (parse_component chunk). now apply parse_field_one_component.
Qed.

Lemma parse_field_repetitions_witness :
  parse_field "ICU^101~ER"
  = Returns (PList [PList [PStr "ICU"; PStr "101"]; PList [PStr "ER"]]).
Proof.
  exact (proj1 (parse_field_repetitions "ICU^101~ER" eq_refl)).
Defined.

(** ** The display renderer *)

Section Renderer.

Variable json_loads : string -> option pyval.

Lemma text_of_str (v : pyval) : text_of v = py_str v.
Proof.
  unfold text_of. destruct v as [| | |s|]; try reflexivity.
  destruct s; reflexivity.
Qed.

Lemma map_text_of_PStr (l : list string) : map text_of (map PStr l) = l.
Proof.
  induction l as [|x l IH]; simpl; [reflexivity|].
  now rewrite text_of_str, IH.
Qed.

Lemma map_flatten_subitem_PStr (l : list string) :
  map flatten_subitem (map PStr l) = l.
Proof.
  induction l as [|x l IH]; simpl; [reflexivity|].
  now rewrite text_of_str, IH.
Qed.

(** A decoded component renders as the text it was decoded from. *)
Lemma flatten_item_parse_component (comp : string) :
  flatten_item (parse_component comp) = comp.
Proof.
  unfold parse_component.
  destruct (str_contains "&" comp); simpl.
  - rewrite map_flatten_subitem_PStr. apply join_split.
  - apply text_of_str.
Qed.

Lemma map_flatten_item_parse_components (rep : string) :
  map flatten_item (parse_components rep) = str_split "^" rep.
Proof.
  unfold parse_components. rewrite map_map.
  induction (str_split "^" rep) as [|x l IH]; simpl; [reflexivity|].
  now rewrite flatten_item_parse_component, IH.
Qed.

Lemma flatten_value_components (rep : string) :
  flatten_value json_loads (PList (parse_components rep)) = rep.
Proof.
  simpl. rewrite map_flatten_item_parse_components. apply join_split.
Qed.

Lemma flatten_value_plain (s : string) :
  looks_like_json_array s = false \/ json_loads s = None ->
  flatten_value json_loads (PStr s) = s.
Proof.
  intros [H|H]; simpl.
  - now rewrite H.
  - rewrite H. now destruct (looks_like_json_array s).
Qed.

End Renderer.

(** C1, as the claim states it, fails: no encoder of the program returns
    the text of a repeated field.  [flatten_value] joins the repetitions of
    ["A~B"] with a component separator and [format_value_list] with a comma
    and a space; [flatten_value] joins the sub-components of a field that
    has no component separator with a component separator, and it reads a
    scalar field that looks like a JSON array as JSON. *)
Lemma flatten_value_round_trip_fails :
  (v <- parse_field "A~B" ;; Returns (flatten_value json_loads_plain v)) = Returns "A^B"
  /\ (v <- parse_field "A~B" ;; Returns (format_value_list json_loads_plain v))
     = Returns "A, B"
  /\ (v <- parse_field "LN&GLU" ;; Returns (flatten_value json_loads_plain v))
     = Returns "LN^GLU"
  /\ (v <- parse_field "[1]" ;; Returns (flatten_value json_loads_plain v)) = Returns "1"
  /\ (v <- parse_field "A~B" ;; Returns (flatten_value json_loads_plain v))
     <> Returns "A~B".
Proof.
  repeat (split; [reflexivity|]). discriminate.
Qed.

(** C1, amended.  With [flatten_value], the encoder the program has, the
    round trip holds for the fields without repetition separator that have
    a component separator, and for the fields without any separator that
    [flatten_value] does not read as a JSON array: for these,
    [flatten_value(parse_field(t)) == t]. *)
Theorem flatten_value_round_trip (json_loads : string -> option pyval) (t : string) :
  str_contains "~" t = false ->
  str_contains "^" t = true
  \/ (str_contains "&" t = false
      /\ (looks_like_json_array t = false \/ json_loads t = None)) ->
  (v <- parse_field t ;; Returns (flatten_value json_loads v)) = Returns t.
Proof.
  intros Hr [Hc|[Hs Hj]].
  - rewrite (parse_field_with_components _ Hr Hc). cbn [bind].
    now rewrite flatten_value_components.
  - destruct (str_contains "^" t) eqn:Hc.
    + rewrite (parse_field_with_components _ Hr Hc). cbn [bind].
      now rewrite flatten_value_components.
    + rewrite (parse_field_plain _ Hr Hc Hs). cbn [bind].
      now rewrite flatten_value_plain.
Qed.

Lemma flatten_value_round_trip_witness :
  (v <- parse_field "ICU^101&A^1^HospitalA" ;; Returns (flatten_value json_loads_plain v))
  = Returns "ICU^101&A^1^HospitalA"
  /\ (v <- parse_field "HospitalA" ;; Returns (flatten_value json_loads_plain v))
     = Returns "HospitalA".
Proof.
  split.
  - apply (flatten_value_round_trip json_loads_plain "ICU^101&A^1^HospitalA").
    + reflexivity.
    + left. reflexivity.
  - apply (flatten_value_round_trip json_loads_plain "HospitalA").
    + reflexivity.
    + right. split; [reflexivity|left; reflexivity].
Defined.

(** C10.  [flatten_value] does not return every string as it is.  A string
    that, once trimmed, begins with an opening and ends with a closing
    square bracket is given to [json.loads]; when that returns a list, the
    result is the elements joined with the component separator, the
    elements of a nested list being joined with the sub-component
    separator, and not the string; the string is returned unchanged when
    [json.loads] raises, and when it does not have the brackets. *)
Theorem flatten_value_reads_json_arrays (json_loads : string -> option pyval) (s : string) :
  (looks_like_json_array s = true ->
   forall items, json_loads s = Some (PList items) ->
     flatten_value json_loads (PStr s)
     = str_join "^"
         (map (fun item =>
                 match item with
                 | PList subitems =>
                     str_join "&"
                       (map (fun subitem =>
                               match subitem with
                               | PList triple => str_join "&" (map py_str triple)
                               | _ => py_str subitem
                               end) subitems)
                 | _ => py_str item
                 end) items))
  /\ (looks_like_json_array s = true -> json_loads s = None ->
      flatten_value json_loads (PStr s) = s)
  /\ (looks_like_json_array s = false -> flatten_value json_loads (PStr s) = s)
  /\ flatten_value json_loads_plain (PStr "[1, [2, 3]]") = "1^2&3".
Proof.
  split; [|split; [|split]].
  - intros Hlooks items Hparsed. simpl. rewrite Hlooks, Hparsed. simpl.
    f_equal. apply map_ext. intros item.
    destruct item as [| | | |subitems]; try apply text_of_str.
    simpl. f_equal. apply map_ext. intros subitem.
    destruct subitem as [| | | |triple]; try apply text_of_str.
    simpl. f_equal. apply map_ext. exact text_of_str.
  - intros Hlooks Hfails. simpl. now rewrite Hlooks, Hfails.
  - intros Hlooks. simpl. now rewrite Hlooks.
  - reflexivity.
Qed.

Lemma flatten_value_reads_json_arrays_witness :
  looks_like_json_array " [10, [20, 30], []] " = true
  /\ json_loads_plain " [10, [20, 30], []] "
     = Some (PList [PInt 10; PList [PInt 20; PInt 30]; PList []])
  /\ flatten_value json_loads_plain (PStr " [10, [20, 30], []] ") = "10^20&30^"
  /\ looks_like_json_array "[10, 20" = false
  /\ flatten_value json_loads_plain (PStr "[10, 20") = "[10, 20"
  /\ looks_like_json_array "[10 20]" = true
  /\ json_loads_plain "[10 20]" = None
  /\ flatten_value json_loads_plain (PStr "[10 20]") = "[10 20]".
Proof.
  split; [reflexivity|]. split; [reflexivity|].
  split.
  { exact (proj1 (flatten_value_reads_json_arrays json_loads_plain " [10, [20, 30], []] ")
             eq_refl _ eq_refl). }
  split; [reflexivity|].
  split.
  { exact (proj1 (proj2 (proj2 (flatten_value_reads_json_arrays json_loads_plain "[10, 20")))
             eq_refl). }
  split; [reflexivity|]. split; [reflexivity|].
  exact (proj1 (proj2 (flatten_value_reads_json_arrays json_loads_plain "[10 20]"))
           eq_refl eq_refl).
Defined.

(** ** Dictionaries and position keys *)

Section DictFacts.
Context {V : Type}.
Implicit Types (d : list (string * V)) (k : string) (v : V).

Lemma dict_get_set_same k v d : dict_get k (dict_set k v d) = Some v.
Proof.
  induction d as [|[k' v'] d IH]; simpl.
  - now rewrite String.eqb_refl.
  - destruct (String.eqb k' k) eqn:E; simpl; now rewrite E.
Qed.

Lemma dict_get_set_other k k' v d :
  k <> k' -> dict_get k' (dict_set k v d) = dict_get k' d.
Proof.
  intros Hne. induction d as [|[k0 v0] d IH]; simpl.
  - destruct (String.eqb_spec k k'); [contradiction|reflexivity].
  - destruct (String.eqb_spec k0 k) as [->|Hk]; simpl.
    + destruct (String.eqb_spec k k'); [contradiction|reflexivity].
    + now rewrite IH.
Qed.

Lemma dict_get_map {W : Type} (f : V -> W) k d :
  dict_get k (map (fun kv => (fst kv, f (snd kv))) d) = option_map f (dict_get k d).
Proof.
  induction d as [|[k0 v0] d IH]; simpl; [reflexivity|].
  destruct (String.eqb k0 k); [reflexivity|exact IH].
Qed.
End DictFacts.

Lemma dict_list_append_same {A : Type} (k : string) (x : A) (d : list (string * list A)) :
  dict_get k (dict_append k x d) = Some (dict_list k d ++ [x])%list.
Proof.
  unfold dict_append, dict_list.
  destruct (dict_get k d); apply dict_get_set_same.
Qed.

Lemma dict_list_append_other {A : Type} (k k' : string) (x : A) (d : list (string * list A)) :
  k <> k' -> dict_get k' (dict_append k x d) = dict_get k' d.
Proof.
  intros Hne. unfold dict_append.
  destruct (dict_get k d); now apply dict_get_set_other.
Qed.

Lemma str_of_nat_inj (n m : nat) : str_of_nat n = str_of_nat m -> n = m.
Proof.
  unfold str_of_nat. intros H.
  apply Unsigned.to_uint_inj.
  assert (E : Some (Nat.to_uint n) = Some (Nat.to_uint m))
    by (rewrite <- !NilEmpty.usu; now rewrite H).
  now injection E.
Qed.

(** ** The message assembler *)

Section Assembler.

(** What [store_fields] leaves under the position keys. *)
Lemma store_fields_spec (fields : list string) :
  forall (i : nat) (seg0 : segment),
  exists seg,
    store_fields fields i seg0 = Returns seg
    /\ (forall j field, nth_error fields j = Some field ->
          if is_empty field
          then dict_get (str_of_nat (i + j)) seg = dict_get (str_of_nat (i + j)) seg0
          else exists value, parse_field field = Returns value
                             /\ dict_get (str_of_nat (i + j)) seg = Some value)
    /\ (forall k, (forall j, (j < List.length fields)%nat -> k <> str_of_nat (i + j)) ->
          dict_get k seg = dict_get k seg0).
Proof.
  induction fields as [|field rest IH]; intros i seg0.
  - exists seg0. split; [reflexivity|]. split; [|reflexivity].
    intros [|j] f; discriminate.
  - simpl store_fields. destruct (is_empty field) eqn:Hempty.
    + destruct (IH (S i) seg0) as (seg & Hrun & Hpos & Hother).
      exists seg. split; [exact Hrun|]. split.
      * intros [|j] f Hnth; simpl in Hnth.
        -- injection Hnth as <-. rewrite Hempty. apply Hother.
           intros j _ E. apply str_of_nat_inj in E. lia.
        -- replace (i + S j)%nat with (S i + j)%nat by lia. now apply Hpos.
      * intros k Hk. apply Hother. intros j Hj.
        replace (S i + j)%nat with (i + S j)%nat by lia. apply Hk. simpl. lia.
    + destruct (parse_field_returns field) as (value & Hvalue).
      rewrite Hvalue. cbn [bind].
      destruct (IH (S i) (dict_set (str_of_nat i) value seg0)) as (seg & Hrun & Hpos & Hother).
      exists seg. split; [exact Hrun|]. split.
      * intros [|j] f Hnth; simpl in Hnth.
        -- injection Hnth as <-. rewrite Hempty. exists value. split; [exact Hvalue|].
           rewrite Hother.
           ++ rewrite Nat.add_0_r. apply dict_get_set_same.
           ++ intros j _ E. apply str_of_nat_inj in E. lia.
        -- replace (i + S j)%nat with (S i + j)%nat by lia.
           specialize (Hpos j f Hnth). destruct (is_empty f); [|exact Hpos].
           rewrite Hpos. apply dict_get_set_other.
           intros E. apply str_of_nat_inj in E. lia.
      * intros k Hk. rewrite Hother.
        -- apply dict_get_set_other. intros E. apply (Hk 0%nat); [simpl; lia|].
           now rewrite Nat.add_0_r.
        -- intros j Hj. replace (S i + j)%nat with (i + S j)%nat by lia.
           apply Hk. simpl. lia.
Qed.

Lemma str_split_singleton (c : ascii) (s x : string) : str_split c s = [x] -> s = x.
Proof.
  intros H. rewrite <- (join_split c s), H. reflexivity.
Qed.

(** A line other than the bare header name is parsed without error. *)
Lemma parse_segment_returns (line : string) :
  strip line <> "MSH" ->
  exists name seg, parse_segment line = Returns (name, seg).
Proof.
  intros Hbare. unfold parse_segment.
  destruct (str_split "|" (strip line)) as [|name rest] eqn:Hparts.
  - now apply split_on_not_nil in Hparts.
  - cbn [py_index nth_error bind].
    destruct (String.eqb_spec name "MSH") as [->|Hname].
    + destruct rest as [|tok more].
      * apply str_split_singleton in Hparts. contradiction.
      * cbn [py_index nth_error bind skipn].
        destruct (store_fields_spec more 3
                    (dict_set "2" (PStr tok) (dict_set "1" (PStr "|") [])))
          as (seg & Hrun & _).
        rewrite Hrun. cbn [bind]. now exists "MSH", seg.
    + cbn [skipn].
      destruct (store_fields_spec rest 1 []) as (seg & Hrun & _).
      rewrite Hrun. cbn [bind]. now exists name, seg.
Qed.

Lemma assemble_line_returns (acc : list (string * list segment)) (line : string) :
  strip line <> "MSH" -> exists acc', assemble_line acc line = Returns acc'.
Proof.
  intros Hbare. unfold assemble_line.
  destruct (is_empty (strip line)); [now exists acc|].
  destruct (parse_segment_returns line Hbare) as (name & seg & E).
  rewrite E. cbn [bind]. eexists. reflexivity.
Qed.

Lemma for_each_assemble_returns (lines : list string) :
  forall acc,
    (forall line, In line lines -> strip line <> "MSH") ->
    exists result, for_each assemble_line lines acc = Returns result.
Proof.
  induction lines as [|line rest IH]; intros acc Hlines; simpl.
  - now exists acc.
  - destruct (assemble_line_returns acc line) as (acc' & E); [apply Hlines; now left|].
    rewrite E. cbn [bind]. apply IH. intros l Hl. apply Hlines. now right.
Qed.

Lemma assemble_returns (lines : list string) :
  (forall line, In line lines -> strip line <> "MSH") ->
  exists msg, assemble lines = Returns msg.
Proof.
  intros Hlines. unfold assemble.
  destruct (for_each_assemble_returns lines [] Hlines) as (result & E).
  rewrite E. cbn [bind]. eexists. reflexivity.
Qed.

(** The accumulated occurrences after the loop over the lines. *)
Lemma for_each_assemble_occurrences (lines : list string) :
  forall acc result,
    for_each assemble_line lines acc = Returns result ->
    (forall k l, dict_get k acc = Some l -> l <> []) ->
    (forall k l, dict_get k result = Some l -> l <> [])
    /\ (forall k, dict_list k result = (dict_list k acc ++ occurrences k lines)%list).
Proof.
  induction lines as [|line rest IH]; intros acc result Hrun Hacc; simpl in Hrun.
  - injection Hrun as <-. split; [exact Hacc|].
    intros k. simpl. now rewrite app_nil_r.
  - unfold assemble_line in Hrun at 1. simpl occurrences.
    destruct (is_empty (strip line)) eqn:Hblank.
    + cbn [bind] in Hrun. apply (IH acc result Hrun Hacc).
    + destruct (parse_segment line) as [[name seg]|e] eqn:Hseg; [|discriminate].
      cbn [bind fst snd] in Hrun.
      destruct (IH _ _ Hrun) as [Hne Hocc].
      * intros k l. destruct (String.eqb_spec name k) as [->|Hk].
        -- rewrite dict_list_append_same. intros [= <-].
           now destruct (dict_list k acc).
        -- rewrite (dict_list_append_other _ _ _ _ Hk). apply Hacc.
      * split; [exact Hne|]. intros k. rewrite Hocc. cbn [fst snd].
        unfold dict_list at 1.
        destruct (String.eqb_spec name k) as [->|Hk].
        -- rewrite dict_list_append_same. now rewrite <- app_assoc.
        -- rewrite (dict_list_append_other _ _ _ _ Hk). reflexivity.
Qed.

End Assembler.

Section AssemblerKeys.

(** The keys [store_fields] adds are the positions of the tokens that are
    not empty. *)
Lemma store_fields_keys (fields : list string) :
  forall (i : nat) (seg0 seg : segment),
    store_fields fields i seg0 = Returns seg ->
    forall k, dict_get k seg <> None ->
      dict_get k seg0 <> None
      \/ exists j field, nth_error fields j = Some field
                         /\ is_empty field = false
                         /\ k = str_of_nat (i + j).
Proof.
  induction fields as [|field rest IH]; intros i seg0 seg Hrun k Hk; simpl in Hrun.
  - injection Hrun as <-. now left.
  - destruct (is_empty field) eqn:Hempty.
    + destruct (IH _ _ _ Hrun k Hk) as [H|(j & f & Hnth & Hf & ->)]; [now left|].
      right. exists (S j), f. repeat split; try assumption. f_equal. lia.
    + destruct (parse_field_returns field) as (value & Hvalue).
      rewrite Hvalue in Hrun. cbn [bind] in Hrun.
      destruct (IH _ _ _ Hrun k Hk) as [H|(j & f & Hnth & Hf & ->)].
      * destruct (String.eqb_spec (str_of_nat i) k) as [<-|Hne].
        -- right. exists 0%nat, field. rewrite Nat.add_0_r. now repeat split.
        -- left. now rewrite (dict_get_set_other _ _ _ _ Hne) in H.
      * right. exists (S j), f. repeat split; try assumption. f_equal. lia.
Qed.

Lemma header_seed_get (k tok : string) :
  dict_get k (dict_set "2" (PStr tok) (dict_set "1" (PStr "|") []))
  = if String.eqb "1" k then Some (PStr "|")
    else if String.eqb "2" k then Some (PStr tok) else None.
Proof. reflexivity. Qed.

Lemma position_key_from_3 (j : nat) :
  String.eqb "1" (str_of_nat (3 + j)) = false
  /\ String.eqb "2" (str_of_nat (3 + j)) = false.
Proof.
  split; apply String.eqb_neq; intros E.
  - change "1" with (str_of_nat 1) in E. apply str_of_nat_inj in E. lia.
  - change "2" with (str_of_nat 2) in E. apply str_of_nat_inj in E. lia.
Qed.

Lemma assemble_single (line name : string) (seg : segment) :
  is_empty (strip line) = false ->
  parse_segment line = Returns (name, seg) ->
  assemble [line] = Returns [(name, One seg)].
Proof.
  intros Hblank Hseg. unfold assemble. simpl for_each.
  unfold assemble_line. rewrite Hblank, Hseg. reflexivity.
Qed.

End AssemblerKeys.

(** C3.  On a header line the assembler stores the field separator under
    the key ["1"] and the token after the segment name, as it is and not
    decoded, under the key ["2"], and numbers the tokens that follow from 3;
    on any other line it numbers the tokens after the name from 1.  A token
    that is not empty is stored decoded under its number, an empty token is
    not stored. *)
Theorem header_offset (line name : string) (rest : list string) :
  str_split "|" (strip line) = name :: rest ->
  (name = "MSH" ->
   forall tok more, rest = tok :: more ->
     exists seg,
       parse_segment line = Returns ("MSH", seg)
       /\ assemble [line] = Returns [("MSH", One seg)]
       /\ dict_get "1" seg = Some (PStr "|")
       /\ dict_get "2" seg = Some (PStr tok)
       /\ forall j field, nth_error more j = Some field ->
            if is_empty field
            then dict_get (str_of_nat (3 + j)) seg = None
            else exists value, parse_field field = Returns value
                               /\ dict_get (str_of_nat (3 + j)) seg = Some value)
  /\ (name <> "MSH" ->
      exists seg,
        parse_segment line = Returns (name, seg)
        /\ (is_empty (strip line) = false -> assemble [line] = Returns [(name, One seg)])
        /\ forall j field, nth_error rest j = Some field ->
             if is_empty field
             then dict_get (str_of_nat (1 + j)) seg = None
             else exists value, parse_field field = Returns value
                                /\ dict_get (str_of_nat (1 + j)) seg = Some value).
Proof.
  intros Hparts. split.
  - intros -> tok more ->.
    destruct (store_fields_spec more 3
                (dict_set "2" (PStr tok) (dict_set "1" (PStr "|") [])))
      as (seg & Hrun & Hpos & Hother).
    assert (Hseg : parse_segment line = Returns ("MSH", seg)).
    { unfold parse_segment. rewrite Hparts.
      cbn [py_index nth_error bind String.eqb Ascii.eqb Bool.eqb skipn].
      rewrite Hrun. reflexivity. }
    exists seg. split; [exact Hseg|]. split; [|split; [|split]].
    + apply assemble_single; [|exact Hseg].
      destruct (strip line); [discriminate Hparts|reflexivity].
    + rewrite Hother; [reflexivity|].
      intros j _ E. apply String.eqb_eq in E.
      now rewrite (proj1 (position_key_from_3 j)) in E.
    + rewrite Hother; [reflexivity|].
      intros j _ E. apply String.eqb_eq in E.
      now rewrite (proj2 (position_key_from_3 j)) in E.
    + intros j field Hnth. specialize (Hpos j field Hnth).
      destruct (is_empty field); [|exact Hpos].
      rewrite Hpos, header_seed_get.
      destruct (position_key_from_3 j) as [-> ->]. reflexivity.
  - intros Hname.
    destruct (store_fields_spec rest 1 []) as (seg & Hrun & Hpos & _).
    assert (Hseg : parse_segment line = Returns (name, seg)).
    { unfold parse_segment. rewrite Hparts. cbn [py_index nth_error bind].
      destruct (String.eqb_spec name "MSH"); [contradiction|].
      cbn [skipn]. rewrite Hrun. reflexivity. }
    exists seg. split; [exact Hseg|]. split.
    + intros Hblank. now apply assemble_single.
    + intros j field Hnth. specialize (Hpos j field Hnth).
      destruct (is_empty field); [|exact Hpos]. now rewrite Hpos.
Qed.

Lemma header_offset_witness :
  str_split "|" (strip "MSH|^~\&|SendApp||SendFac^B")
  = "MSH" :: ["^~\&"; "SendApp"; ""; "SendFac^B"]
  /\ exists seg,
       parse_segment "MSH|^~\&|SendApp||SendFac^B" = Returns ("MSH", seg)
       /\ dict_get "1" seg = Some (PStr "|")
       /\ dict_get "2" seg = Some (PStr "^~\&")
       /\ dict_get "3" seg = Some (PStr "SendApp")
       /\ dict_get "4" seg = None.
Proof.
  split; [reflexivity|].
  destruct (proj1 (header_offset "MSH|^~\&|SendApp||SendFac^B" "MSH"
                     ["^~\&"; "SendApp"; ""; "SendFac^B"] eq_refl)
              eq_refl "^~\&" ["SendApp"; ""; "SendFac^B"] eq_refl)
    as (seg & Hseg & _ & H1 & H2 & Hpos).
  exists seg. split; [exact Hseg|]. split; [exact H1|]. split; [exact H2|].
  split.
  - destruct (Hpos 0%nat "SendApp" eq_refl) as (value & Hvalue & Hget).
    injection Hvalue as <-. exact Hget.
  - exact (Hpos 1%nat "" eq_refl).
Defined.

(** C4, as the claim states it, fails: a header line made of the name and
    the separator yields a segment that holds the positions 1 and 2, not an
    empty field mapping; and a header line made of the name alone raises. *)
Lemma assemble_header_only_lines :
  hl7_to_custom_json "MSH|" = Returns [("MSH", One [("1", PStr "|"); ("2", PStr "")])]
  /\ hl7_to_custom_json "MSH" = Raises IndexError.
Proof.
  split; reflexivity.
Qed.

(** C4, amended.  On every sequence of segment lines in which no line is
    the header name alone, assembly returns a message and does not raise.
    On such a line a position is in the field mapping only if its token is
    there and is not empty, the positions 1 and 2 of a header line apart; a
    line that is not a header and is made of a name alone, or of a name and
    a separator, yields an empty field mapping. *)
Theorem assemble_total (lines : list string) :
  (forall line, In line lines -> strip line <> "MSH") ->
  (exists msg, assemble lines = Returns msg)
  /\ (forall line, In line lines ->
        exists name rest seg,
          str_split "|" (strip line) = name :: rest
          /\ parse_segment line = Returns (name, seg)
          /\ (forall k, dict_get k seg <> None ->
                if String.eqb name "MSH"
                then k = "1" \/ k = "2"
                     \/ exists j field, nth_error (skipn 1 rest) j = Some field
                                        /\ is_empty field = false
                                        /\ k = str_of_nat (3 + j)
                else exists j field, nth_error rest j = Some field
                                     /\ is_empty field = false
                                     /\ k = str_of_nat (1 + j))
          /\ (name <> "MSH" -> rest = [] \/ rest = [""] -> seg = [])).
Proof.
  intros Hlines. split; [now apply assemble_returns|].
  intros line Hin. specialize (Hlines line Hin).
  destruct (split_on_cons (Ascii.eqb "|") (strip line)) as (name & rest & Hparts).
  fold (str_split "|" (strip line)) in Hparts.
  exists name, rest. unfold parse_segment. rewrite Hparts.
  cbn [py_index nth_error bind].
  destruct (String.eqb_spec name "MSH") as [->|Hname].
  - destruct rest as [|tok more].
    { apply str_split_singleton in Hparts. contradiction. }
    cbn [py_index nth_error bind skipn].
    destruct (store_fields_spec more 3
                (dict_set "2" (PStr tok) (dict_set "1" (PStr "|") [])))
      as (seg & Hrun & _).
    rewrite Hrun. cbn [bind]. exists seg.
    split; [reflexivity|]. split; [reflexivity|]. split; [|congruence].
    intros k Hk.
    destruct (store_fields_keys _ _ _ _ Hrun k Hk) as [H0|H]; [|now right; right].
    rewrite header_seed_get in H0.
    destruct (String.eqb_spec "1" k) as [<-|_]; [now left|].
    destruct (String.eqb_spec "2" k) as [<-|_]; [now right; left|].
    now contradiction H0.
  - cbn [skipn].
    destruct (store_fields_spec rest 1 []) as (seg & Hrun & _).
    rewrite Hrun. cbn [bind]. exists seg.
    split; [reflexivity|]. split; [reflexivity|]. split.
    + intros k Hk.
      destruct (store_fields_keys _ _ _ _ Hrun k Hk) as [H0|H]; [|exact H].
      now contradiction H0.
    + intros _ [->| ->]; simpl in Hrun; now injection Hrun.
Qed.

Lemma assemble_total_witness :
  (forall line, In line ["MSH|^~\&|App"; "PID"; "|x"; "OBX|"] -> strip line <> "MSH")
  /\ assemble ["MSH|^~\&|App"; "PID"; "|x"; "OBX|"]
     = Returns [("MSH", One [("1", PStr "|"); ("2", PStr "^~\&"); ("3", PStr "App")]);
                ("PID", One []);
                ("", One [("1", PStr "x")]);
                ("OBX", One [])].
Proof.
  assert (H : forall line, In line ["MSH|^~\&|App"; "PID"; "|x"; "OBX|"] ->
                           strip line <> "MSH").
  { simpl. intros line [<-|[<-|[<-|[<-|[]]]]]; vm_compute; discriminate. }
  split; [exact H|].
  destruct (proj1 (assemble_total _ H)) as (msg & Hmsg).
  rewrite Hmsg. vm_compute in Hmsg. now injection Hmsg as <-.
Defined.

(** C5.  In an assembled message, a segment name that occurs once in the
    lines maps to the bare segment of that occurrence, a name that occurs
    twice or more maps to the sequence of its segments in the order of the
    lines, and a name that does not occur is not a key. *)
Theorem message_shape_by_cardinality (lines : list string) (msg : message) :
  assemble lines = Returns msg ->
  forall name,
    (occurrences name lines = [] -> dict_get name msg = None)
    /\ (forall seg, occurrences name lines = [seg] -> dict_get name msg = Some (One seg))
    /\ ((2 <= List.length (occurrences name lines))%nat ->
        dict_get name msg = Some (Many (occurrences name lines))).
Proof.
  unfold assemble. intros Hrun name.
  destruct (for_each assemble_line lines []) as [result|e] eqn:Hloop; [|discriminate].
  cbn [bind] in Hrun. injection Hrun as <-.
  destruct (for_each_assemble_occurrences lines [] result Hloop) as [Hne Hocc].
  { intros k l. discriminate. }
  specialize (Hocc name). unfold dict_list in Hocc. simpl in Hocc.
  rewrite dict_get_map.
  destruct (dict_get name result) as [l|] eqn:Hget; simpl; rewrite <- Hocc.
  - split; [|split].
    + intros ->. now apply Hne in Hget.
    + intros seg ->. reflexivity.
    + intros Hlen. destruct l as [|s1 [|s2 l]]; simpl in Hlen; try lia. reflexivity.
  - split; [reflexivity|]. split; [discriminate|]. simpl. lia.
Qed.

Lemma message_shape_by_cardinality_witness :
  assemble ["MSH|^~\&|App"; "OBX|1"; ""; "PID|7"; "OBX|2"]
  = Returns [("MSH", One [("1", PStr "|"); ("2", PStr "^~\&"); ("3", PStr "App")]);
             ("OBX", Many [[("1", PStr "1")]; [("1", PStr "2")]]);
             ("PID", One [("1", PStr "7")])]
  /\ dict_get "PID" [("MSH", One [("1", PStr "|"); ("2", PStr "^~\&"); ("3", PStr "App")]);
                     ("OBX", Many [[("1", PStr "1")]; [("1", PStr "2")]]);
                     ("PID", One [("1", PStr "7")])]
     = Some (One [("1", PStr "7")])
  /\ dict_get "OBX" [("MSH", One [("1", PStr "|"); ("2", PStr "^~\&"); ("3", PStr "App")]);
                     ("OBX", Many [[("1", PStr "1")]; [("1", PStr "2")]]);
                     ("PID", One [("1", PStr "7")])]
     = Some (Many [[("1", PStr "1")]; [("1", PStr "2")]]).
Proof.
  split; [reflexivity|]. split.
  - exact (proj1 (proj2 (message_shape_by_cardinality
                           ["MSH|^~\&|App"; "OBX|1"; ""; "PID|7"; "OBX|2"] _ eq_refl "PID"))
             [("1", PStr "7")] eq_refl).
  - apply (proj2 (proj2 (message_shape_by_cardinality
                           ["MSH|^~\&|App"; "OBX|1"; ""; "PID|7"; "OBX|2"] _ eq_refl "OBX"))).
    vm_compute. lia.
Defined.

(** ** Occurrences of a text, and the pieces of a split *)

Section Occurrences.

Lemma prefix_nil (s : string) : String.prefix "" s = true.
Proof. now destruct s. Qed.

Lemma prefix_cons (a b : ascii) (p s : string) :
  String.prefix (String a p) (String b s) = Ascii.eqb a b && String.prefix p s.
Proof.
  simpl. destruct (ascii_dec a b) as [->|Hne].
  - now rewrite Ascii.eqb_refl.
  - apply Ascii.eqb_neq in Hne. now rewrite Hne.
Qed.

Lemma prefix_trans (p x s : string) :
  String.prefix p x = true -> String.prefix x s = true -> String.prefix p s = true.
Proof.
  revert x s. induction p as [|a p IH]; intros x s Hpx Hxs; [apply prefix_nil|].
  destruct x as [|b x]; [discriminate|]. destruct s as [|c s]; [discriminate|].
  rewrite prefix_cons in *.
  apply andb_true_iff in Hpx as [Hab Hp]. apply andb_true_iff in Hxs as [Hbc Hx].
  apply Ascii.eqb_eq in Hab, Hbc. subst. rewrite Ascii.eqb_refl. simpl.
  now apply (IH x).
Qed.

Lemma prefix_app (p s : string) : String.prefix p (p ++ s) = true.
Proof.
  induction p as [|a p IH]; simpl; [apply prefix_nil|].
  destruct (ascii_dec a a); [exact IH|contradiction].
Qed.

(** An occurrence in a prefix of [s] is an occurrence in [s]. *)
Lemma occurs_in_prefix (pat x : string) :
  forall s, String.prefix x s = true -> occurs pat x = true -> occurs pat s = true.
Proof.
  induction x as [|a x IH]; intros s Hxs Hocc.
  - simpl in Hocc. rewrite orb_false_r in Hocc.
    destruct pat; [|discriminate]. destruct s; reflexivity.
  - destruct s as [|b s]; [discriminate|].
    rewrite prefix_cons in Hxs. apply andb_true_iff in Hxs as [Hab Hx].
    apply Ascii.eqb_eq in Hab. subst b.
    cbn [occurs] in *. apply orb_true_iff in Hocc as [Hp|Hrest].
    + apply orb_true_iff. left. apply (prefix_trans _ (String a x)); [exact Hp|].
      rewrite prefix_cons, Ascii.eqb_refl. exact Hx.
    + apply orb_true_iff. right. now apply IH.
Qed.

(** An occurrence in a suffix of [s] is an occurrence in [s]. *)
Lemma occurs_tail (pat : string) (a : ascii) (s : string) :
  occurs pat s = true -> occurs pat (String a s) = true.
Proof.
  intros H. cbn [occurs]. rewrite H. apply orb_true_r.
Qed.

Lemma occurs_lstrip (pat s : string) :
  occurs pat (lstrip s) = true -> occurs pat s = true.
Proof.
  induction s as [|a s IH]; simpl lstrip; [trivial|].
  destruct (is_space a); [|trivial].
  intros H. apply occurs_tail. now apply IH.
Qed.

Lemma rstrip_keeps (a : ascii) (s : string) :
  is_space a = false -> rstrip (String a s) = String a (rstrip s).
Proof.
  intros Ha. simpl. rewrite Ha. now destruct (rstrip s).
Qed.

Lemma prefix_rstrip (s : string) : String.prefix (rstrip s) s = true.
Proof.
  induction s as [|a s IH]; [reflexivity|].
  simpl rstrip. destruct (rstrip s) as [|b kept] eqn:E.
  - destruct (is_space a); [reflexivity|].
    rewrite prefix_cons, Ascii.eqb_refl. apply prefix_nil.
  - rewrite prefix_cons, Ascii.eqb_refl. exact IH.
Qed.

Lemma occurs_strip (pat s : string) :
  occurs pat (strip s) = true -> occurs pat s = true.
Proof.
  unfold strip. intros H. apply occurs_lstrip.
  apply (occurs_in_prefix pat (rstrip (lstrip s))); [apply prefix_rstrip|exact H].
Qed.

(** The first piece of a split is a prefix of the text. *)
Lemma split_on_first_prefix (p : ascii -> bool) (s : string) :
  forall piece pieces, split_on p s = piece :: pieces -> String.prefix piece s = true.
Proof.
  induction s as [|a s IH]; intros piece pieces H; simpl in H.
  - now injection H as <- <-.
  - destruct (p a).
    + now injection H as <- <-.
    + destruct (split_on p s) as [|x xs] eqn:E.
      * now apply split_on_not_nil in E.
      * injection H as <- <-. rewrite prefix_cons, Ascii.eqb_refl. now apply (IH x xs).
Qed.

Lemma split_on_no_occurrence (pat : string) (p : ascii -> bool) (s : string) :
  pat <> "" ->
  occurs pat s = false ->
  Forall (fun piece => occurs pat piece = false) (split_on p s).
Proof.
  intros Hpat. induction s as [|a s IH]; intros Hocc.
  - constructor; [exact Hocc|constructor].
  - cbn [occurs] in Hocc. apply orb_false_iff in Hocc as [Hhead Hrest].
    specialize (IH Hrest). simpl.
    assert (Hnil : occurs pat "" = false) by (destruct pat; [contradiction|reflexivity]).
    destruct (p a); [now constructor|].
    destruct (split_on p s) as [|x xs] eqn:E; [now apply split_on_not_nil in E|].
    inversion IH as [|? ? Hx Hxs]; subst. constructor; [|exact Hxs].
    cbn [occurs]. rewrite Hx, orb_false_r.
    destruct (String.prefix pat (String a x)) eqn:Hp; [|reflexivity].
    rewrite <- Hhead. symmetry.
    apply (prefix_trans _ (String a x)); [exact Hp|].
    rewrite prefix_cons, Ascii.eqb_refl. now apply (split_on_first_prefix p s x xs).
Qed.

Lemma split_literal_not_nil (pat : string) (s : string) :
  forall skip, split_literal_go pat skip s <> [].
Proof.
  induction s as [|a s IH]; intros skip; cbn [split_literal_go]; [discriminate|].
  destruct skip; [|apply IH].
  destruct (String.prefix pat (String a s)); [discriminate|].
  destruct (split_literal_go pat 0 s); discriminate.
Qed.

Lemma split_literal_first_prefix (pat : string) (s : string) :
  forall piece pieces,
    split_literal_go pat 0 s = piece :: pieces -> String.prefix piece s = true.
Proof.
  induction s as [|a s IH]; intros piece pieces H; cbn [split_literal_go] in H.
  - now injection H as <- <-.
  - destruct (String.prefix pat (String a s)).
    + now injection H as <- <-.
    + destruct (split_literal_go pat 0 s) as [|x xs] eqn:E.
      * now apply split_literal_not_nil in E.
      * injection H as <- <-. rewrite prefix_cons, Ascii.eqb_refl. now apply (IH x xs).
Qed.

(** No chunk of [re.split] has an occurrence of the pattern. *)
Lemma split_literal_no_occurrence (pat : string) (s : string) :
  pat <> "" ->
  forall skip, Forall (fun chunk => occurs pat chunk = false) (split_literal_go pat skip s).
Proof.
  intros Hpat.
  assert (Hnil : occurs pat "" = false) by (destruct pat; [contradiction|reflexivity]).
  induction s as [|a s IH]; intros skip; cbn [split_literal_go].
  - constructor; [exact Hnil|constructor].
  - destruct skip; [|apply IH].
    destruct (String.prefix pat (String a s)) eqn:Hhead.
    + constructor; [exact Hnil|apply IH].
    + specialize (IH 0%nat).
      destruct (split_literal_go pat 0 s) as [|x xs] eqn:E;
        [now apply split_literal_not_nil in E|].
      inversion IH as [|? ? Hx Hxs]; subst. constructor; [|exact Hxs].
      cbn [occurs]. rewrite Hx, orb_false_r.
      destruct (String.prefix pat (String a x)) eqn:Hp; [|reflexivity].
      rewrite <- Hhead. symmetry.
      apply (prefix_trans _ (String a x)); [exact Hp|].
      rewrite prefix_cons, Ascii.eqb_refl.
      now apply (split_literal_first_prefix pat s x xs).
Qed.

Lemma occurs_false_prefix (pat s : string) :
  occurs pat s = false -> String.prefix pat s = false.
Proof.
  destruct s; cbn [occurs]; intros H; now apply orb_false_iff in H.
Qed.

End Occurrences.

(** ** The message splitter *)

Section Splitter.

Lemma all_space_lstrip (s : string) : all_space (lstrip s) = all_space s.
Proof.
  induction s as [|a rest IH]; simpl; [reflexivity|].
  destruct (is_space a) eqn:Ha; simpl; [exact IH|now rewrite Ha].
Qed.

Lemma is_empty_rstrip (s : string) : is_empty (rstrip s) = all_space s.
Proof.
  induction s as [|a rest IH]; simpl; [reflexivity|].
  destruct (rstrip rest) eqn:E; simpl in IH; rewrite <- IH.
  - destruct (is_space a); reflexivity.
  - now rewrite andb_false_r.
Qed.

(** A string is blank once stripped exactly when it is made of white
    space. *)
Lemma is_empty_strip (s : string) : is_empty (strip s) = all_space s.
Proof.
  unfold strip. now rewrite is_empty_rstrip, all_space_lstrip.
Qed.

Lemma strip_all_space (s : string) : all_space s = true -> strip s = "".
Proof.
  intros H. rewrite <- is_empty_strip in H. now destruct (strip s).
Qed.

(** The split has consumed the header token of every chunk. *)
Lemma chunk_not_prefixed (s chunk : string) :
  In chunk (re_split_literal HL7_SPLIT_PATTERN s) ->
  startswith chunk "MSH|" = false.
Proof.
  intros Hin. unfold startswith. apply occurs_false_prefix.
  pose proof (split_literal_no_occurrence HL7_SPLIT_PATTERN s) as F.
  specialize (F ltac:(discriminate) 0%nat).
  rewrite Forall_forall in F. now apply F.
Qed.

End Splitter.

(** C7.  Every message text the splitter returns starts with the header
    token ["MSH|"]: it is a chunk of the split that is not made of white
    space, with the token, which the split consumed, put back before it.
    There is one returned text for each such chunk, the chunks made of
    white space being dropped; an input that is empty or made of white
    space gives the empty sequence. *)
Theorem split_hl7_messages_spec (raw_data : string) :
  let chunks := re_split_literal HL7_SPLIT_PATTERN (strip raw_data) in
  Forall (fun text => startswith text "MSH|" = true) (split_hl7_messages raw_data)
  /\ (forall text, In text (split_hl7_messages raw_data) ->
        exists chunk, In chunk chunks /\ all_space chunk = false
                      /\ text = "MSH|" ++ chunk)
  /\ List.length (split_hl7_messages raw_data)
     = List.length (filter (fun chunk => negb (all_space chunk)) chunks)
  /\ (all_space raw_data = true -> split_hl7_messages raw_data = []).
Proof.
  intros chunks. unfold split_hl7_messages. fold chunks.
  split; [|split; [|split]].
  - apply Forall_forall. intros text Hin.
    apply in_map_iff in Hin as (chunk & <- & _).
    destruct (startswith chunk "MSH|") eqn:E; [exact E|].
    unfold startswith. simpl. now destruct chunk.
  - intros text Hin. apply in_map_iff in Hin as (chunk & <- & Hin).
    apply filter_In in Hin as [Hin Hblank].
    rewrite is_empty_strip in Hblank. apply negb_true_iff in Hblank.
    exists chunk. split; [exact Hin|]. split; [exact Hblank|].
    now rewrite (chunk_not_prefixed _ _ Hin).
  - rewrite length_map. f_equal. apply filter_ext.
    intros chunk. now rewrite is_empty_strip.
  - intros Hblank. subst chunks. now rewrite (strip_all_space _ Hblank).
Qed.

Lemma split_hl7_messages_spec_witness :
  all_space (" " ++ newline) = true
  /\ split_hl7_messages (" " ++ newline) = []
  /\ split_hl7_messages ("MSH|a" ++ newline ++ "PID|1" ++ newline ++ "MSH|b" ++ newline)
     = ["MSH|a" ++ newline ++ "PID|1" ++ newline; "MSH|b"].
Proof.
  split; [reflexivity|]. split; [|reflexivity].
  exact (proj2 (proj2 (proj2 (split_hl7_messages_spec (" " ++ newline)))) eq_refl).
Defined.

(** ** The tabular projector *)

Section Projector.

Variable schema : list string.

Lemma str_contains_app (c : ascii) (a b : string) :
  str_contains c (a ++ b) = str_contains c a || str_contains c b.
Proof.
  induction a as [|x a IH]; simpl; [reflexivity|].
  now rewrite IH, orb_assoc.
Qed.

(** A cell name has a hyphen, the key of the correlation column has none. *)
Lemma cell_name_not_key (name key : string) :
  name ++ "-" ++ key <> "message_control_id".
Proof.
  intros E.
  assert (H : str_contains "-" (name ++ "-" ++ key) = true).
  { rewrite !str_contains_app. simpl. now rewrite orb_true_r. }
  rewrite E in H. discriminate.
Qed.


Lemma all_rows_append (Q : row -> Prop) tables (name : string) (r : row) :
  all_rows Q tables -> Q r -> all_rows Q (dict_append name r tables).
Proof.
  intros Hall Hr k rows.
  destruct (String.eqb_spec name k) as [<-|Hne].
  - rewrite dict_list_append_same. intros [= <-].
    apply Forall_app. split; [|now constructor].
    unfold dict_list. destruct (dict_get name tables) eqn:E; [|constructor].
    now apply (Hall name).
  - rewrite (dict_list_append_other _ _ _ _ Hne). apply Hall.
Qed.

Lemma project_segment_rows (Q : row -> Prop) (message_id : pyval) tables item :
  (forall name seg, Q (make_row message_id name seg)) ->
  all_rows Q tables ->
  all_rows Q (project_segment schema message_id tables item).
Proof.
  intros HQ Hall. unfold project_segment.
  destruct (negb (existsb (String.eqb (fst item)) schema)); [exact Hall|].
  generalize dependent tables.
  induction (match snd item with One seg => [seg] | Many segs => segs end)
    as [|seg segs IH]; intros tables Hall; simpl; [exact Hall|].
  apply IH. now apply all_rows_append.
Qed.

Lemma project_items_rows (Q : row -> Prop) (message_id : pyval) (items : message) :
  (forall name seg, Q (make_row message_id name seg)) ->
  forall tables, all_rows Q tables ->
    all_rows Q (fold_left (project_segment schema message_id) items tables).
Proof.
  intros HQ. induction items as [|item items IH]; intros tables Hall; simpl.
  - exact Hall.
  - apply IH. now apply project_segment_rows.
Qed.

Lemma all_names_append (P : string -> Prop) tables (name : string) (r : row) :
  all_names P tables -> P name -> all_names P (dict_append name r tables).
Proof.
  intros Hall Hname k.
  destruct (String.eqb_spec name k) as [<-|Hne]; [intros _; exact Hname|].
  rewrite (dict_list_append_other _ _ _ _ Hne). apply Hall.
Qed.

Lemma project_segment_names (P : string -> Prop) (message_id : pyval) tables item :
  (In (fst item) schema -> P (fst item)) ->
  all_names P tables ->
  all_names P (project_segment schema message_id tables item).
Proof.
  intros HP Hall. unfold project_segment.
  destruct (existsb (String.eqb (fst item)) schema) eqn:Hin; simpl; [|exact Hall].
  apply existsb_exists in Hin as (x & Hx & E). apply String.eqb_eq in E. subst x.
  specialize (HP Hx).
  generalize dependent tables.
  induction (match snd item with One seg => [seg] | Many segs => segs end)
    as [|seg segs IH]; intros tables Hall; simpl; [exact Hall|].
  apply IH. now apply all_names_append.
Qed.

Lemma project_items_names (P : string -> Prop) (message_id : pyval) (items : message) :
  (forall name, In name (dict_keys items) -> In name schema -> P name) ->
  forall tables, all_names P tables ->
    all_names P (fold_left (project_segment schema message_id) items tables).
Proof.
  induction items as [|item items IH]; intros HP tables Hall; simpl.
  - exact Hall.
  - apply IH.
    + intros name Hin. apply HP. now right.
    + apply project_segment_names; [|exact Hall]. apply HP. now left.
Qed.

Lemma message_id_of_single (msg : message) :
  single_header msg = true ->
  exists key, message_id_of msg = Returns key.
Proof.
  unfold single_header, message_id_of.
  destruct (dict_get "MSH" msg) as [[seg|segs]|]; try discriminate; intros _.
  - destruct (dict_get "10" seg); eexists; reflexivity.
  - eexists; reflexivity.
Qed.

Lemma convert_invariant (Q : row -> Prop) (P : string -> Prop) (msgs : list message) :
  (forall msg, In msg msgs -> single_header msg = true) ->
  (forall msg key name seg, In msg msgs -> message_id_of msg = Returns key ->
                            Q (make_row key name seg)) ->
  (forall msg name, In msg msgs -> In name (dict_keys msg) -> In name schema -> P name) ->
  forall tables, all_rows Q tables -> all_names P tables ->
    exists tables',
      for_each (project_message schema) msgs tables = Returns tables'
      /\ all_rows Q tables' /\ all_names P tables'.
Proof.
  induction msgs as [|msg msgs IH]; intros Hsingle HQ HP tables Hrows Hnames; simpl.
  - now exists tables.
  - unfold project_message at 1.
    destruct (message_id_of_single msg) as (key & Hkey); [apply Hsingle; now left|].
    rewrite Hkey. cbn [bind].
    apply IH.
    + intros m Hm. apply Hsingle. now right.
    + intros m k name seg Hm. apply HQ. now right.
    + intros m name Hm. apply HP. now right.
    + apply project_items_rows; [|exact Hrows].
      intros name seg. apply (HQ msg); [now left|exact Hkey].
    + apply project_items_names; [|exact Hnames].
      intros name. apply HP. now left.
Qed.

End Projector.

Section ProjectorOutcome.

Variable schema : list string.

Lemma message_id_of_raises (msg : message) :
  single_header msg = false -> message_id_of msg = Raises AttributeError.
Proof.
  unfold single_header, message_id_of.
  destruct (dict_get "MSH" msg) as [[seg|segs]|]; try discriminate. reflexivity.
Qed.

(** The projection returns only if no message has several headers. *)
Lemma convert_returns_single (msgs : list message) :
  forall tables tables',
    for_each (project_message schema) msgs tables = Returns tables' ->
    forall msg, In msg msgs -> single_header msg = true.
Proof.
  induction msgs as [|m msgs IH]; intros tables tables' Hrun msg Hin.
  - contradiction.
  - simpl in Hrun. unfold project_message at 1 in Hrun.
    destruct (single_header m) eqn:Hm.
    + destruct Hin as [<-|Hin]; [exact Hm|].
      destruct (message_id_of m); [|discriminate].
      cbn [bind] in Hrun. now apply (IH _ _ Hrun).
    + now rewrite (message_id_of_raises _ Hm) in Hrun.
Qed.

Lemma project_segment_skips (message_id : pyval) tables (name : string) (e : entry) :
  ~ In name schema ->
  project_segment schema message_id tables (name, e) = tables.
Proof.
  intros Hout. unfold project_segment. cbn [fst snd].
  destruct (existsb (String.eqb name) schema) eqn:Hin; [|reflexivity].
  apply existsb_exists in Hin as (x & Hx & E). apply String.eqb_eq in E. now subst x.
Qed.

End ProjectorOutcome.

(** A text with two header lines, which the splitter never hands to the
    assembler, is assembled into a message that holds the sequence of the
    two header segments under ["MSH"]; the projection of such a message
    raises. *)
Lemma projection_of_two_headers_raises :
  hl7_to_custom_json ("MSH|^~\&|A" ++ newline ++ "MSH|^~\&|B")
  = Returns [("MSH", Many [[("1", PStr "|"); ("2", PStr "^~\&"); ("3", PStr "A")];
                           [("1", PStr "|"); ("2", PStr "^~\&"); ("3", PStr "B")]])]
  /\ (msg <- hl7_to_custom_json ("MSH|^~\&|A" ++ newline ++ "MSH|^~\&|B") ;;
      convert_to_parquet_tables [msg] ["MSH"])
     = Raises AttributeError.
Proof.
  split; reflexivity.
Qed.


(** C9.  A segment whose name is not in the schema is skipped: the tables
    are left as they are and nothing is raised.  The projection raises only
    on a message that has several header segments, whatever the schema;
    when it returns, a name that is not in the schema has no table, and a
    name that has a table is in the schema and is a segment name of one of
    the messages. *)
Theorem schema_filtering (schema : list string) (msgs : list message) :
  (forall message_id tables name e,
      ~ In name schema ->
      project_segment schema message_id tables (name, e) = tables)
  /\ ((forall msg, In msg msgs -> single_header msg = true) ->
      exists tables, convert_to_parquet_tables msgs schema = Returns tables)
  /\ (forall tables,
        convert_to_parquet_tables msgs schema = Returns tables ->
        (forall name, ~ In name schema -> dict_get name tables = None)
        /\ (forall name, dict_get name tables <> None ->
              In name schema
              /\ exists msg, In msg msgs /\ In name (dict_keys msg))).
Proof.
  set (P := fun name => In name schema
                        /\ exists msg, In msg msgs /\ In name (dict_keys msg)).
  assert (Hinv : (forall msg, In msg msgs -> single_header msg = true) ->
                 exists tables,
                   convert_to_parquet_tables msgs schema = Returns tables
                   /\ all_names P tables).
  { intros Hsingle.
    destruct (convert_invariant schema (fun _ => True) P msgs Hsingle) with (tables := @nil (string * list row))
      as (tables & Hrun & _ & Hnames).
    - trivial.
    - intros msg name Hmsg Hkey Hin. split; [exact Hin|]. now exists msg.
    - intros k l. discriminate.
    - intros k Hk. now contradiction Hk.
    - now exists tables. }
  split; [|split].
  - intros. now apply project_segment_skips.
  - intros Hsingle. destruct (Hinv Hsingle) as (tables & Hrun & _). now exists tables.
  - intros tables Hrun.
    destruct Hinv as (tables' & Hrun' & Hnames).
    { now apply (convert_returns_single schema msgs [] tables). }
    rewrite Hrun in Hrun'. injection Hrun' as <-.
    split.
    + intros name Hout. destruct (dict_get name tables) eqn:E; [|reflexivity].
      destruct (Hnames name) as [Hin _]; [now rewrite E|contradiction].
    + exact Hnames.
Qed.

Lemma schema_filtering_witness :
  (msgs <- parse_multiple_hl7_messages
             ("MSH|^~\&|App|Fac||||||ID1" ++ newline ++ "PID|1" ++ newline ++ "ZZZ|9") ;;
   convert_to_parquet_tables msgs ["PID"; "OBX"])
  = Returns [("PID", [[("message_control_id", PStr "ID1"); ("PID-1", PStr "1")]])]
  /\ dict_get "ZZZ" [("PID", [[("message_control_id", PStr "ID1"); ("PID-1", PStr "1")]])]
     = None.
Proof.
  split; [reflexivity|].
  refine (proj1 (proj2 (proj2 (schema_filtering ["PID"; "OBX"]
            [[("MSH", One [("1", PStr "|"); ("2", PStr "^~\&"); ("3", PStr "App");
                           ("4", PStr "Fac"); ("10", PStr "ID1")]);
              ("PID", One [("1", PStr "1")]);
              ("ZZZ", One [("1", PStr "9")])]])) _ eq_refl) "ZZZ" _).
  simpl. intros [H|[H|[]]]; discriminate.
Defined.

(** ** From the raw text to the tables

    The splitter cuts the input at every header token, so a message it
    hands to the assembler has one header line, the first: the assembled
    message has its header segment once, and the projection of the messages
    of an input does not raise. *)

Section Pipeline.

(** A line without the header token is not assembled as a header. *)
Lemma parse_segment_not_header (line name : string) (seg : segment) :
  occurs "MSH|" line = false ->
  parse_segment line = Returns (name, seg) ->
  name <> "MSH".
Proof.
  intros Hocc Hseg Hname. subst name. unfold parse_segment in Hseg.
  destruct (str_split "|" (strip line)) as [|name rest] eqn:Hparts;
    [now apply split_on_not_nil in Hparts|].
  cbn [py_index nth_error bind] in Hseg.
  destruct (String.eqb_spec name "MSH") as [->|Hname].
  - destruct rest as [|tok more]; [discriminate|].
    assert (E : strip line = "MSH|" ++ str_join "|" (tok :: more)).
    { rewrite <- (join_split "|" (strip line)), Hparts. reflexivity. }
    assert (H : occurs "MSH|" (strip line) = true).
    { rewrite E. destruct (str_join "|" (tok :: more)); reflexivity. }
    apply occurs_strip in H. congruence.
  - destruct (store_fields (skipn 1 (name :: rest)) 1 []); [|discriminate].
    cbn [bind] in Hseg. congruence.
Qed.

Lemma occurrences_none (lines : list string) :
  Forall (fun line => occurs "MSH|" line = false) lines ->
  occurrences "MSH" lines = [].
Proof.
  induction 1 as [|line lines Hline _ IH]; [reflexivity|].
  simpl. rewrite IH, app_nil_r.
  destruct (is_empty (strip line)); [reflexivity|].
  destruct (parse_segment line) as [[name seg]|e] eqn:Hseg; [|reflexivity].
  cbn [fst snd]. destruct (String.eqb_spec name "MSH") as [->|_]; [|reflexivity].
  now apply parse_segment_not_header in Hseg.
Qed.

(** The lines of a message text that the splitter returns: only the
    first can hold the header token. *)
Lemma getSegments_header_text (chunk : string) :
  occurs "MSH|" chunk = false ->
  exists first others,
    getSegments ("MSH|" ++ chunk) = first :: others
    /\ Forall (fun line => occurs "MSH|" line = false) others.
Proof.
  intros Hocc. unfold getSegments, strip.
  change (lstrip ("MSH|" ++ chunk)) with ("MSH|" ++ chunk).
  change ("MSH|" ++ chunk) with (String "M" (String "S" (String "H" (String "|" chunk)))).
  rewrite !rstrip_keeps by reflexivity.
  assert (Hkept : occurs "MSH|" (rstrip chunk) = false).
  { destruct (occurs "MSH|" (rstrip chunk)) eqn:E; [|reflexivity].
    rewrite <- Hocc. symmetry.
    apply (occurs_in_prefix _ (rstrip chunk)); [apply prefix_rstrip|exact E]. }
  pose proof (split_on_no_occurrence "MSH|"
                (fun c => Ascii.eqb c "013" || Ascii.eqb c "010") (rstrip chunk)
                ltac:(discriminate) Hkept) as F.
  cbn [split_on Ascii.eqb Bool.eqb orb].
  destruct (split_on _ (rstrip chunk)) as [|x xs] eqn:E;
    [now apply split_on_not_nil in E|].
  inversion F; subst. eexists. exists xs. split; [reflexivity|assumption].
Qed.

Lemma header_text_single (chunk : string) (msg : message) :
  occurs "MSH|" chunk = false ->
  hl7_to_custom_json ("MSH|" ++ chunk) = Returns msg ->
  single_header msg = true.
Proof.
  intros Hocc Hrun. unfold hl7_to_custom_json in Hrun.
  destruct (getSegments_header_text chunk Hocc) as (first & others & Hlines & Hothers).
  rewrite Hlines in Hrun.
  assert (Hlen : (List.length (occurrences "MSH" (first :: others)) <= 1)%nat).
  { change (first :: others) with ([first] ++ others)%list.
    unfold occurrences. rewrite flat_map_app.
    fold (occurrences "MSH" others). rewrite (occurrences_none _ Hothers), app_nil_r.
    simpl. rewrite app_nil_r.
    destruct (is_empty (strip first)); [simpl; lia|].
    destruct (parse_segment first) as [named|e]; [|simpl; lia].
    destruct (String.eqb (fst named) "MSH"); simpl; lia. }
  unfold assemble in Hrun.
  destruct (for_each assemble_line (first :: others) []) as [result|e] eqn:Hloop;
    [|discriminate].
  cbn [bind] in Hrun. injection Hrun as <-.
  destruct (for_each_assemble_occurrences _ [] result Hloop) as [Hne Hlist].
  { intros k l. discriminate. }
  specialize (Hlist "MSH"). unfold dict_list in Hlist. cbn [dict_get app] in Hlist.
  unfold single_header. rewrite dict_get_map.
  destruct (dict_get "MSH" result) as [l|] eqn:Hget; [|reflexivity].
  simpl. rewrite <- Hlist in Hlen.
  destruct l as [|s1 [|s2 l]]; simpl in Hlen; [|reflexivity|lia].
  now apply Hne in Hget.
Qed.

Lemma map_outcome_in {A B : Type} (f : A -> outcome B) (l : list A) :
  forall ys, map_outcome f l = Returns ys ->
    forall y, In y ys -> exists x, In x l /\ f x = Returns y.
Proof.
  induction l as [|x l IH]; intros ys Hrun y Hy; simpl in Hrun.
  - injection Hrun as <-. contradiction.
  - destruct (f x) as [y0|e] eqn:Hx; [|discriminate]. cbn [bind] in Hrun.
    destruct (map_outcome f l) as [ys0|e]; [|discriminate]. cbn [bind] in Hrun.
    injection Hrun as <-. destruct Hy as [<-|Hy].
    + exists x. split; [now left|exact Hx].
    + destruct (IH ys0 eq_refl y Hy) as (x' & Hin & Hx'). exists x'. split; [now right|exact Hx'].
Qed.

(** Every message assembled from an input has its header segment once. *)
Lemma parse_multiple_single_header (raw_data : string) (msgs : list message) :
  parse_multiple_hl7_messages raw_data = Returns msgs ->
  forall msg, In msg msgs -> single_header msg = true.
Proof.
  unfold parse_multiple_hl7_messages. intros Hrun msg Hmsg.
  destruct (map_outcome_in _ _ _ Hrun msg Hmsg) as (text & Htext & Hjson).
  unfold split_hl7_messages in Htext.
  apply in_map_iff in Htext as (chunk & <- & Hchunk).
  apply filter_In in Hchunk as [Hchunk _].
  rewrite (chunk_not_prefixed _ _ Hchunk) in Hjson.
  apply (header_text_single chunk); [|exact Hjson].
  pose proof (split_literal_no_occurrence HL7_SPLIT_PATTERN (strip raw_data)) as F.
  specialize (F ltac:(discriminate) 0%nat).
  rewrite Forall_forall in F. now apply F.
Qed.

(** The projection of the messages assembled from an input returns. *)
Lemma pipeline_projection_returns (raw_data : string) (msgs : list message)
      (schema : list string) :
  parse_multiple_hl7_messages raw_data = Returns msgs ->
  exists tables, convert_to_parquet_tables msgs schema = Returns tables.
Proof.
  intros Hrun.
  destruct (convert_invariant schema (fun _ => True) (fun _ => True) msgs)
    with (tables := @nil (string * list row)) as (tables & Htables & _).
  - now apply (parse_multiple_single_header raw_data).
  - trivial.
  - trivial.
  - intros k l. discriminate.
  - intros k Hk. trivial.
  - now exists tables.
Qed.

End Pipeline.



(** * Further properties *)

(** ** The assembler: errors, white space, shape of the message *)

Section AssemblerErrors.

Lemma parse_segment_bare (line : string) :
  strip line = "MSH" -> parse_segment line = Raises IndexError.
Proof.
  intros H. unfold parse_segment. rewrite H. reflexivity.
Qed.

Lemma assemble_line_bare (acc : list (string * list segment)) (line : string) :
  strip line = "MSH" -> assemble_line acc line = Raises IndexError.
Proof.
  intros H. unfold assemble_line. rewrite (parse_segment_bare _ H), H. reflexivity.
Qed.

Lemma for_each_assemble_bare (lines : list string) :
  forall acc,
    (exists line, In line lines /\ strip line = "MSH") ->
    for_each assemble_line lines acc = Raises IndexError.
Proof.
  induction lines as [|line rest IH]; intros acc (bare & Hin & Hbare).
  - contradiction.
  - simpl. destruct (String.eqb_spec (strip line) "MSH") as [E|E].
    + now rewrite (assemble_line_bare _ _ E).
    + destruct (assemble_line_returns acc line E) as (acc' & Hacc).
      rewrite Hacc. cbn [bind]. apply IH.
      destruct Hin as [<-|Hin]; [contradiction|]. now exists bare.
Qed.

Lemma bare_line_dec (lines : list string) :
  (exists line, In line lines /\ strip line = "MSH")
  \/ (forall line, In line lines -> strip line <> "MSH").
Proof.
  induction lines as [|line rest [(bare & Hin & Hbare)|IH]].
  - right. intros line [].
  - left. exists bare. split; [now right|exact Hbare].
  - destruct (String.eqb_spec (strip line) "MSH") as [E|E].
    + left. exists line. split; [now left|exact E].
    + right. intros l [<-|Hl]; [exact E|now apply IH].
Qed.

End AssemblerErrors.

(** X1.  The only error of the assembler is [IndexError], and it is raised
    exactly when a line, once stripped, is the header name alone. *)
Theorem assemble_raises_iff (lines : list string) :
  (forall e, assemble lines = Raises e -> e = IndexError)
  /\ (assemble lines = Raises IndexError
      <-> exists line, In line lines /\ strip line = "MSH").
Proof.
  destruct (bare_line_dec lines) as [Hbare|Hnone].
  - assert (E : assemble lines = Raises IndexError).
    { unfold assemble. now rewrite (for_each_assemble_bare lines [] Hbare). }
    split.
    + intros e He. congruence.
    + split; [intros _; exact Hbare|intros _; exact E].
  - destruct (assemble_returns lines Hnone) as (msg & E).
    split.
    + intros e He. congruence.
    + split; [intros He; congruence|].
      intros (line & Hin & Hline). now apply Hnone in Hin.
Qed.

Lemma assemble_raises_iff_witness :
  assemble ["MSH|^~\&|A"; "PID|1"; " MSH "] = Raises IndexError
  /\ exists msg, assemble ["MSH|^~\&|A"; "PID|1"; "MSHX"] = Returns msg.
Proof.
  split.
  - apply (proj2 (assemble_raises_iff ["MSH|^~\&|A"; "PID|1"; " MSH "])).
    exists " MSH ". split; [simpl; tauto|reflexivity].
  - eexists. reflexivity.
Defined.

Section AssemblerWhiteSpace.

Lemma rstrip_cons (a : ascii) (rest : string) :
  rstrip (String a rest)
  = match rstrip rest with
    | EmptyString => if is_space a then EmptyString else String a EmptyString
    | kept => String a kept
    end.
Proof. reflexivity. Qed.

Lemma rstrip_idempotent (s : string) : rstrip (rstrip s) = rstrip s.
Proof.
  induction s as [|a rest IH]; [reflexivity|].
  rewrite rstrip_cons. destruct (rstrip rest) as [|b kept] eqn:E.
  - destruct (is_space a) eqn:Ha; [reflexivity|].
    rewrite rstrip_cons. simpl. now rewrite Ha.
  - rewrite rstrip_cons, IH. reflexivity.
Qed.

Lemma lstrip_head (s : string) :
  lstrip s = "" \/ exists a rest, lstrip s = String a rest /\ is_space a = false.
Proof.
  induction s as [|a rest IH]; [now left|].
  simpl. destruct (is_space a) eqn:Ha; [exact IH|].
  right. now exists a, rest.
Qed.

Lemma strip_head (s : string) :
  strip s = "" \/ exists a rest, strip s = String a rest /\ is_space a = false.
Proof.
  unfold strip. destruct (lstrip_head s) as [->|(a & rest & -> & Ha)]; [now left|].
  right. exists a, (rstrip rest). split; [now apply rstrip_keeps|exact Ha].
Qed.

Lemma strip_idempotent (s : string) : strip (strip s) = strip s.
Proof.
  destruct (strip_head s) as [E|(a & rest & E & Ha)].
  - now rewrite E.
  - unfold strip at 1. rewrite E. simpl lstrip. rewrite Ha.
    rewrite <- E. unfold strip. apply rstrip_idempotent.
Qed.

Lemma assemble_line_strip (acc : list (string * list segment)) (line : string) :
  assemble_line acc (strip line) = assemble_line acc line.
Proof.
  unfold assemble_line, parse_segment. now rewrite strip_idempotent.
Qed.

Lemma for_each_assemble_normal (lines : list string) :
  forall acc,
    for_each assemble_line
      (map strip (filter (fun line => negb (all_space line)) lines)) acc
    = for_each assemble_line lines acc.
Proof.
  induction lines as [|line rest IH]; intros acc; [reflexivity|].
  simpl. destruct (all_space line) eqn:Hblank; simpl.
  - rewrite IH. unfold assemble_line at 2.
    now rewrite is_empty_strip, Hblank.
  - rewrite assemble_line_strip.
    destruct (assemble_line acc line); [apply IH|reflexivity].
Qed.

End AssemblerWhiteSpace.

(** X2.  The assembler sees only the stripped text of the lines that are
    not blank: dropping the lines made of white space and stripping the
    others changes neither the message nor the error. *)
Theorem assemble_ignores_white_space (lines : list string) :
  assemble (map strip (filter (fun line => negb (all_space line)) lines))
  = assemble lines.
Proof.
  unfold assemble. now rewrite for_each_assemble_normal.
Qed.

Section AssemblerShape.

Lemma dict_keys_set {V : Type} (k : string) (v : V) (d : list (string * V)) :
  dict_keys (dict_set k v d)
  = if existsb (String.eqb k) (dict_keys d) then dict_keys d
    else (dict_keys d ++ [k])%list.
Proof.
  unfold dict_keys. induction d as [|[k0 v0] d IH]; simpl; [reflexivity|].
  rewrite (String.eqb_sym k k0). destruct (String.eqb k0 k); simpl; [reflexivity|].
  rewrite IH. now destruct (existsb (String.eqb k) (map fst d)).
Qed.

Lemma NoDup_dict_set {V : Type} (k : string) (v : V) (d : list (string * V)) :
  NoDup (dict_keys d) -> NoDup (dict_keys (dict_set k v d)).
Proof.
  intros Hd. rewrite dict_keys_set.
  destruct (existsb (String.eqb k) (dict_keys d)) eqn:E; [exact Hd|].
  apply NoDup_app; [exact Hd|repeat constructor; intros []|].
  intros x Hx [Ek|[]]. subst x.
  assert (H : existsb (String.eqb k) (dict_keys d) = true).
  { apply existsb_exists. exists k. split; [exact Hx|apply String.eqb_refl]. }
  congruence.
Qed.

Lemma dict_keys_append {A : Type} (k : string) (x : A) (d : list (string * list A)) :
  NoDup (dict_keys d) -> NoDup (dict_keys (dict_append k x d)).
Proof.
  unfold dict_append. destruct (dict_get k d); apply NoDup_dict_set.
Qed.

Lemma store_fields_nodup (fields : list string) :
  forall i seg0 seg,
    store_fields fields i seg0 = Returns seg ->
    NoDup (dict_keys seg0) -> NoDup (dict_keys seg).
Proof.
  induction fields as [|field rest IH]; intros i seg0 seg Hrun Hseg0; simpl in Hrun.
  - now injection Hrun as <-.
  - destruct (is_empty field); [now apply (IH _ _ _ Hrun)|].
    destruct (parse_field field); [|discriminate]. cbn [bind] in Hrun.
    apply (IH _ _ _ Hrun). now apply NoDup_dict_set.
Qed.

Lemma parse_segment_nodup (line name : string) (seg : segment) :
  parse_segment line = Returns (name, seg) -> NoDup (dict_keys seg).
Proof.
  unfold parse_segment. intros H.
  destruct (py_index (str_split "|" (strip line)) 0) as [name0|]; [|discriminate].
  cbn [bind] in H. destruct (String.eqb name0 "MSH").
  - destruct (py_index (str_split "|" (strip line)) 1) as [tok|]; [|discriminate].
    cbn [bind] in H.
    destruct (store_fields _ 3 _) as [seg'|] eqn:Hrun; [|discriminate].
    cbn [bind] in H. injection H as _ <-.
    apply (store_fields_nodup _ _ _ _ Hrun).
    repeat apply NoDup_dict_set. constructor.
  - destruct (store_fields _ 1 _) as [seg'|] eqn:Hrun; [|discriminate].
    cbn [bind] in H. injection H as _ <-.
    apply (store_fields_nodup _ _ _ _ Hrun). constructor.
Qed.

Lemma occurrences_nodup (name : string) (lines : list string) :
  Forall (fun seg => NoDup (dict_keys seg)) (occurrences name lines).
Proof.
  unfold occurrences. apply Forall_flat_map. apply Forall_forall. intros line _.
  destruct (is_empty (strip line)); [constructor|].
  destruct (parse_segment line) as [[n seg]|e] eqn:Hseg; [|constructor].
  cbn [fst snd]. destruct (String.eqb n name); [|constructor].
  constructor; [|constructor]. now apply (parse_segment_nodup line n).
Qed.

Lemma for_each_assemble_nodup (lines : list string) :
  forall acc result,
    for_each assemble_line lines acc = Returns result ->
    NoDup (dict_keys acc) -> NoDup (dict_keys result).
Proof.
  induction lines as [|line rest IH]; intros acc result Hrun Hacc; simpl in Hrun.
  - now injection Hrun as <-.
  - unfold assemble_line in Hrun at 1.
    destruct (is_empty (strip line)); cbn [bind] in Hrun; [now apply (IH _ _ Hrun)|].
    destruct (parse_segment line); [|discriminate]. cbn [bind] in Hrun.
    apply (IH _ _ Hrun). now apply dict_keys_append.
Qed.

Lemma dict_keys_map {V W : Type} (f : V -> W) (d : list (string * V)) :
  dict_keys (map (fun kv => (fst kv, f (snd kv))) d) = dict_keys d.
Proof.
  unfold dict_keys. rewrite map_map. reflexivity.
Qed.

End AssemblerShape.

(** X3.  An assembled message is a well-formed dictionary: no segment name
    is a key twice, no position is a key twice in a segment, and a sequence
    under a name has two segments or more. *)
Theorem assembled_message_well_formed (lines : list string) (msg : message) :
  assemble lines = Returns msg ->
  NoDup (dict_keys msg)
  /\ forall name e, dict_get name msg = Some e ->
       match e with
       | One seg => NoDup (dict_keys seg)
       | Many segs =>
           (2 <= List.length segs)%nat
           /\ Forall (fun seg => NoDup (dict_keys seg)) segs
       end.
Proof.
  unfold assemble. intros Hrun.
  destruct (for_each assemble_line lines []) as [result|e] eqn:Hloop; [|discriminate].
  cbn [bind] in Hrun. injection Hrun as <-.
  split.
  - rewrite dict_keys_map. apply (for_each_assemble_nodup _ _ _ Hloop). constructor.
  - intros name e. rewrite dict_get_map.
    destruct (for_each_assemble_occurrences lines [] result Hloop) as [Hne Hocc].
    { intros k l. discriminate. }
    specialize (Hocc name). unfold dict_list in Hocc. cbn [dict_get app] in Hocc.
    destruct (dict_get name result) as [l|] eqn:Hget; [|discriminate].
    simpl. intros [= <-].
    pose proof (occurrences_nodup name lines) as Hnd. rewrite <- Hocc in Hnd.
    destruct l as [|s1 [|s2 l]]; simpl.
    + now apply Hne in Hget.
    + now inversion Hnd.
    + split; [lia|exact Hnd].
Qed.

Lemma assembled_message_well_formed_witness :
  NoDup (dict_keys [("MSH", One [("1", PStr "|"); ("2", PStr "^~\&")]);
                    ("OBX", Many [[("1", PStr "1")]; [("1", PStr "2")]])]).
Proof.
  exact (proj1 (assembled_message_well_formed ["MSH|^~\&"; "OBX|1"; "OBX|2"] _ eq_refl)).
Defined.

(** ** The field decoder: leaves, scalars, ambiguity *)

Section DecoderShape.

(** A character that is not in a text is in none of its pieces. *)
Lemma split_on_pieces_without (d : ascii) (p : ascii -> bool) (s : string) :
  str_contains d s = false ->
  Forall (fun piece => str_contains d piece = false) (split_on p s).
Proof.
  induction s as [|a rest IH]; intros H; simpl.
  - repeat constructor.
  - simpl in H. apply orb_false_iff in H as [Ha Hrest]. specialize (IH Hrest).
    destruct (p a); [constructor; [reflexivity|exact IH]|].
    destruct (split_on p rest) as [|x xs]; simpl.
    + constructor; [simpl; now rewrite Ha|constructor].
    + inversion IH; subst. constructor; [simpl; rewrite Ha; assumption|assumption].
Qed.

Lemma flat_map_leaves_PStr (l : list string) : flat_map leaves (map PStr l) = l.
Proof.
  induction l as [|x l IH]; simpl; [reflexivity|now rewrite IH].
Qed.

Lemma leaves_component (comp : string) :
  str_contains "~" comp = false ->
  str_contains "^" comp = false ->
  Forall (fun s => str_contains "~" s = false /\ str_contains "^" s = false
                   /\ str_contains "&" s = false)
         (leaves (parse_component comp)).
Proof.
  intros Hr Hc. unfold parse_component.
  destruct (str_contains "&" comp) eqn:Hs; simpl.
  - rewrite flat_map_leaves_PStr. apply Forall_forall. intros sub Hin.
    pose proof (split_on_pieces_without "~" (Ascii.eqb "&") comp Hr) as F1.
    pose proof (split_on_pieces_without "^" (Ascii.eqb "&") comp Hc) as F2.
    rewrite Forall_forall in F1, F2.
    repeat split; [now apply F1|now apply F2|now apply (str_split_pieces "&" comp)].
  - repeat constructor; assumption.
Qed.

Lemma leaves_components (rep : string) :
  str_contains "~" rep = false ->
  Forall (fun s => str_contains "~" s = false /\ str_contains "^" s = false
                   /\ str_contains "&" s = false)
         (flat_map leaves (parse_components rep)).
Proof.
  intros Hr. unfold parse_components. apply Forall_flat_map.
  apply Forall_forall. intros v Hv. apply in_map_iff in Hv as (comp & <- & Hin).
  apply leaves_component.
  - pose proof (split_on_pieces_without "~" (Ascii.eqb "^") rep Hr) as F.
    rewrite Forall_forall in F. now apply F.
  - now apply (str_split_pieces "^" rep).
Qed.

Lemma split_on_app_sep (p : ascii -> bool) (x : string) (c : ascii) (rest : string) :
  none_of p x = true -> p c = true ->
  split_on p (x ++ String c rest) = x :: split_on p rest.
Proof.
  intros Hx Hc. induction x as [|a x IH]; simpl.
  - now rewrite Hc.
  - simpl in Hx. apply andb_true_iff in Hx as [Ha Hx]. apply negb_true_iff in Ha.
    now rewrite Ha, (IH Hx).
Qed.

(** Splitting what was joined gives the pieces back. *)
Lemma split_join (c : ascii) (pieces : list string) :
  pieces <> [] ->
  Forall (fun piece => str_contains c piece = false) pieces ->
  str_split c (str_join (String c EmptyString) pieces) = pieces.
Proof.
  intros Hne Hall. induction Hall as [|x l Hx Hl IH]; [contradiction|].
  destruct l as [|y l].
  - simpl. now apply str_split_none.
  - change (str_join (String c "") (x :: y :: l))
      with (x ++ String c (str_join (String c "") (y :: l))).
    unfold str_split. rewrite split_on_app_sep.
    + f_equal. apply IH. discriminate.
    + rewrite none_of_contains, Hx. reflexivity.
    + apply Ascii.eqb_refl.
Qed.

Lemma str_contains_append (c : ascii) (a b : string) :
  str_contains c (a ++ b) = str_contains c a || str_contains c b.
Proof.
  induction a as [|x a IH]; simpl; [reflexivity|].
  now rewrite IH, orb_assoc.
Qed.

Lemma str_contains_join_other (d c : ascii) (pieces : list string) :
  d <> c ->
  Forall (fun piece => str_contains d piece = false) pieces ->
  str_contains d (str_join (String c EmptyString) pieces) = false.
Proof.
  intros Hdc Hall. induction Hall as [|x l Hx Hl IH]; [reflexivity|].
  destruct l as [|y l]; [exact Hx|].
  change (str_join (String c "") (x :: y :: l))
    with (x ++ String c (str_join (String c "") (y :: l))).
  rewrite str_contains_append, Hx. simpl.
  apply Ascii.eqb_neq in Hdc. rewrite (Ascii.eqb_sym c d), Hdc. exact IH.
Qed.

Lemma str_contains_join_sep (c : ascii) (x y : string) (l : list string) :
  str_contains c (str_join (String c EmptyString) (x :: y :: l)) = true.
Proof.
  change (str_join (String c "") (x :: y :: l))
    with (x ++ String c (str_join (String c "") (y :: l))).
  rewrite str_contains_append. simpl. rewrite Ascii.eqb_refl. apply orb_true_r.
Qed.

Lemma map_parse_component_plain (pieces : list string) :
  Forall (fun piece => str_contains "&" piece = false) pieces ->
  map parse_component pieces = map PStr pieces.
Proof.
  induction 1 as [|x l Hx _ IH]; simpl; [reflexivity|].
  unfold parse_component at 1. now rewrite Hx, IH.
Qed.

End DecoderShape.

(** X4.  No string at a leaf of a decoded field holds a separator: the
    decoder leaves no repetition, component or sub-component separator in
    the data. *)
Theorem parse_field_leaves_plain (field : string) (value : pyval) :
  parse_field field = Returns value ->
  Forall (fun s => str_contains "~" s = false /\ str_contains "^" s = false
                   /\ str_contains "&" s = false)
         (leaves value).
Proof.
  intros H. destruct (str_contains "~" field) eqn:Hr.
  - rewrite (parse_field_repeated _ Hr) in H. injection H as <-.
    simpl. apply Forall_flat_map. apply Forall_forall. intros v Hv.
    apply in_map_iff in Hv as (rep & <- & Hin). simpl.
    apply leaves_components. now apply (str_split_pieces "~" field).
  - destruct (str_contains "^" field) eqn:Hc.
    + rewrite (parse_field_with_components _ Hr Hc) in H. injection H as <-.
      simpl. now apply leaves_components.
    + destruct (parse_field_one_component _ Hr Hc) as [E _].
      rewrite E in H. injection H as <-. now apply leaves_component.
Qed.

Lemma parse_field_leaves_plain_witness :
  Forall (fun s => str_contains "~" s = false /\ str_contains "^" s = false
                   /\ str_contains "&" s = false)
         (leaves (PList [PList [PStr "A"; PList [PStr "B"; PStr "C"]]; PList [PStr "D"]])).
Proof.
  exact (parse_field_leaves_plain "A^B&C~D" _ eq_refl).
Defined.

(** X5.  The decoder returns a bare string exactly when the field has no
    separator at all, and the string is then the field itself. *)
Theorem parse_field_scalar_iff (field s : string) :
  parse_field field = Returns (PStr s)
  <-> (str_contains "~" field = false /\ str_contains "^" field = false
       /\ str_contains "&" field = false /\ s = field).
Proof.
  split.
  - intros H. destruct (str_contains "~" field) eqn:Hr.
    { rewrite (parse_field_repeated _ Hr) in H. discriminate. }
    destruct (str_contains "^" field) eqn:Hc.
    { rewrite (parse_field_with_components _ Hr Hc) in H. discriminate. }
    destruct (parse_field_one_component _ Hr Hc) as [E _].
    rewrite E in H. unfold parse_component in H.
    destruct (str_contains "&" field); [discriminate|].
    injection H as <-. now repeat split.
  - intros (Hr & Hc & Hs & ->). now apply parse_field_plain.
Qed.

(** X6.  The decoder is not injective: a field made of sub-components
    only and the field made of the same pieces as components decode to the
    same list of strings. *)
Theorem parse_field_conflates_levels (pieces : list string) :
  (2 <= List.length pieces)%nat ->
  Forall (fun s => str_contains "~" s = false /\ str_contains "^" s = false
                   /\ str_contains "&" s = false) pieces ->
  parse_field (str_join "&" pieces) = Returns (PList (map PStr pieces))
  /\ parse_field (str_join "^" pieces) = Returns (PList (map PStr pieces))
  /\ str_join "&" pieces <> str_join "^" pieces.
Proof.
  intros Hlen Hplain.
  assert (Hr : Forall (fun s => str_contains "~" s = false) pieces)
    by (eapply Forall_impl; [|exact Hplain]; simpl; tauto).
  assert (Hc : Forall (fun s => str_contains "^" s = false) pieces)
    by (eapply Forall_impl; [|exact Hplain]; simpl; tauto).
  assert (Hs : Forall (fun s => str_contains "&" s = false) pieces)
    by (eapply Forall_impl; [|exact Hplain]; simpl; tauto).
  destruct pieces as [|x [|y l]]; simpl in Hlen; try lia.
  assert (Hne : x :: y :: l <> []) by discriminate.
  assert (E1 : parse_field (str_join "&" (x :: y :: l))
               = Returns (PList (map PStr (x :: y :: l)))).
  { destruct (parse_field_one_component (str_join "&" (x :: y :: l))) as [E _].
    - apply str_contains_join_other; [discriminate|exact Hr].
    - apply str_contains_join_other; [discriminate|exact Hc].
    - rewrite E. unfold parse_component.
      now rewrite str_contains_join_sep, (split_join "&" _ Hne Hs). }
  assert (E2 : parse_field (str_join "^" (x :: y :: l))
               = Returns (PList (map PStr (x :: y :: l)))).
  { rewrite parse_field_with_components.
    - unfold parse_components.
      now rewrite (split_join "^" _ Hne Hc), (map_parse_component_plain _ Hs).
    - apply str_contains_join_other; [discriminate|exact Hr].
    - apply str_contains_join_sep. }
  split; [exact E1|]. split; [exact E2|].
  intros E.
  assert (H : str_contains "^" (str_join "&" (x :: y :: l)) = true).
  { rewrite E. apply str_contains_join_sep. }
  rewrite str_contains_join_other in H; [discriminate|discriminate|exact Hc].
Qed.

Lemma parse_field_conflates_levels_witness :
  parse_field "LN&GLU&1234" = Returns (PList [PStr "LN"; PStr "GLU"; PStr "1234"])
  /\ parse_field "LN^GLU^1234" = Returns (PList [PStr "LN"; PStr "GLU"; PStr "1234"]).
Proof.
  destruct (parse_field_conflates_levels ["LN"; "GLU"; "1234"]) as (H1 & H2 & _).
  - simpl. lia.
  - repeat constructor.
  - split; [exact H1|exact H2].
Defined.

(** ** The message splitter: nothing but white space is lost *)

Section SplitterJoin.

Lemma str_app_assoc (a b c : string) : (a ++ b) ++ c = a ++ (b ++ c).
Proof.
  induction a as [|x a IH]; simpl; [reflexivity|now rewrite IH].
Qed.

Lemma str_join_cons (sep x y : string) (l : list string) :
  str_join sep (x :: y :: l) = x ++ sep ++ str_join sep (y :: l).
Proof. reflexivity. Qed.

Lemma prefix_drop (p s : string) :
  String.prefix p s = true -> s = p ++ str_drop (String.length p) s.
Proof.
  revert s. induction p as [|a p IH]; intros s H.
  - now destruct s.
  - destruct s as [|b s]; [discriminate|].
    rewrite prefix_cons in H. apply andb_true_iff in H as [Hab Hp].
    apply Ascii.eqb_eq in Hab. subst b. simpl. f_equal. now apply IH.
Qed.

Lemma prefix_length (p s : string) :
  String.prefix p s = true -> (String.length p <= String.length s)%nat.
Proof.
  revert s. induction p as [|a p IH]; intros s H; simpl; [lia|].
  destruct s as [|b s]; [discriminate|].
  rewrite prefix_cons in H. apply andb_true_iff in H as [_ Hp].
  simpl. apply IH in Hp. lia.
Qed.

(** Joining the chunks of [re.split] with the pattern gives the text
    back. *)
Lemma split_literal_join (a : ascii) (pat' : string) (s : string) :
  forall skip, (skip <= String.length s)%nat ->
    str_join (String a pat') (split_literal_go (String a pat') skip s) = str_drop skip s.
Proof.
  induction s as [|b s IH]; intros skip Hskip.
  - simpl in Hskip. now replace skip with 0%nat by lia.
  - cbn [split_literal_go]. destruct skip as [|k].
    + destruct (String.prefix (String a pat') (String b s)) eqn:Hp.
      * destruct (split_literal_go (String a pat') (String.length (String a pat') - 1) s)
          as [|y l] eqn:E; [now apply split_literal_not_nil in E|].
        rewrite str_join_cons, <- E.
        rewrite prefix_cons in Hp. apply andb_true_iff in Hp as [Hab Hp'].
        apply Ascii.eqb_eq in Hab. subst b.
        rewrite IH by (simpl; rewrite Nat.sub_0_r; now apply prefix_length).
        simpl. rewrite Nat.sub_0_r. f_equal. symmetry. now apply prefix_drop.
      * specialize (IH 0%nat ltac:(lia)). simpl in IH.
        destruct (split_literal_go (String a pat') 0 s) as [|x xs] eqn:E;
          [now apply split_literal_not_nil in E|].
        simpl str_drop. rewrite <- IH. now destruct xs.
    + simpl str_drop. apply IH. simpl in Hskip. lia.
Qed.

Lemma concat_prefixed (pat : string) (l : list string) :
  l <> [] ->
  str_join "" (map (fun chunk => pat ++ chunk) l) = pat ++ str_join pat l.
Proof.
  induction l as [|x l IH]; intros Hne; [contradiction|].
  destruct l as [|y l].
  - simpl. reflexivity.
  - change (map (fun chunk => pat ++ chunk) (x :: y :: l))
      with ((pat ++ x) :: map (fun chunk => pat ++ chunk) (y :: l)).
    cbn [map]. rewrite str_join_cons. cbn [map] in IH. rewrite IH by discriminate.
    rewrite str_join_cons. now rewrite !str_app_assoc.
Qed.

Lemma all_space_prefix_head (c s : string) :
  String.prefix c s = true ->
  (s = "" \/ exists a rest, s = String a rest /\ is_space a = false) ->
  all_space c = true -> c = "".
Proof.
  intros Hp [->|(a & rest & -> & Ha)] Hc.
  - destruct c; [reflexivity|discriminate].
  - destruct c as [|b c]; [reflexivity|].
    rewrite prefix_cons in Hp. apply andb_true_iff in Hp as [Hab _].
    apply Ascii.eqb_eq in Hab. subst b. simpl in Hc. now rewrite Ha in Hc.
Qed.

Lemma split_literal_first_empty (pat s c : string) (rest : list string) :
  split_literal_go pat 0 s = c :: rest ->
  (c = "" -> String.prefix pat s = true \/ s = "")
  /\ (c <> "" -> String.prefix pat s = false /\ s <> "").
Proof.
  destruct s as [|b s]; cbn [split_literal_go].
  - intros [= <- <-]. split; [now right|congruence].
  - destruct (String.prefix pat (String b s)) eqn:Hp.
    + intros [= <- _]. split; [now left|congruence].
    + destruct (split_literal_go pat 0 s); intros [= <- _];
        (split; [discriminate|intros _; split; [reflexivity|discriminate]]).
Qed.

Lemma map_reprefix (s : string) (l : list string) :
  (forall chunk, In chunk l -> In chunk (re_split_literal HL7_SPLIT_PATTERN s)) ->
  map (fun chunk => if startswith chunk "MSH|" then chunk else "MSH|" ++ chunk) l
  = map (fun chunk => "MSH|" ++ chunk) l.
Proof.
  intros H. apply map_ext_in. intros chunk Hin.
  now rewrite (chunk_not_prefixed s chunk (H chunk Hin)).
Qed.

End SplitterJoin.

(** X8.  The splitter loses nothing but white space.  When no chunk after
    the first is made of white space, the returned texts put end to end are
    the stripped input, with the header token before it if the input does
    not begin with the token. *)
Theorem split_hl7_messages_concat (raw_data : string) :
  Forall (fun chunk => all_space chunk = false)
         (tl (re_split_literal HL7_SPLIT_PATTERN (strip raw_data))) ->
  str_join "" (split_hl7_messages raw_data)
  = if startswith (strip raw_data) "MSH|" || is_empty (strip raw_data)
    then strip raw_data
    else "MSH|" ++ strip raw_data.
Proof.
  intros Hrest. unfold split_hl7_messages.
  pose proof (split_literal_join "M" "SH|" (strip raw_data) 0 ltac:(lia)) as Hjoin.
  simpl str_drop in Hjoin.
  change (split_literal_go "MSH|" 0 (strip raw_data))
    with (re_split_literal HL7_SPLIT_PATTERN (strip raw_data)) in Hjoin.
  rewrite map_reprefix with (s := strip raw_data)
    by (intros chunk Hin; now apply filter_In in Hin).
  destruct (re_split_literal HL7_SPLIT_PATTERN (strip raw_data)) as [|c0 rest] eqn:E.
  { now apply split_literal_not_nil in E. }
  simpl in Hrest.
  assert (Hfilter : filter (fun chunk => negb (is_empty (strip chunk))) rest = rest).
  { clear -Hrest. induction Hrest as [|x l Hx _ IH]; [reflexivity|].
    simpl. now rewrite is_empty_strip, Hx, IH. }
  pose proof (split_literal_first_prefix _ _ _ _ E) as Hprefix.
  destruct (split_literal_first_empty _ _ _ _ E) as [Hempty Hfull].
  cbn [filter]. rewrite Hfilter, is_empty_strip.
  destruct (all_space c0) eqn:Hc0; cbn [negb].
  - assert (c0 = "") by (apply (all_space_prefix_head c0 (strip raw_data));
                         [exact Hprefix|apply strip_head|exact Hc0]).
    subst c0. change HL7_SPLIT_PATTERN with "MSH|" in *. destruct rest as [|r rs].
    + rewrite <- Hjoin. reflexivity.
    + rewrite concat_prefixed by discriminate.
      rewrite <- Hjoin, str_join_cons.
      change ("" ++ "MSH|" ++ str_join "MSH|" (r :: rs))
        with ("MSH|" ++ str_join "MSH|" (r :: rs)).
      unfold startswith. now rewrite prefix_app.
  - rewrite concat_prefixed by discriminate.
    change HL7_SPLIT_PATTERN with "MSH|" in *. rewrite Hjoin.
    destruct Hfull as [Hp Hnil]; [intros ->; discriminate|].
    unfold startswith. rewrite Hp. now destruct (strip raw_data).
Qed.

Lemma split_hl7_messages_concat_witness :
  split_hl7_messages (" MSH|a" ++ newline ++ "PID|1" ++ newline ++ "MSH|b" ++ newline)
  = ["MSH|a" ++ newline ++ "PID|1" ++ newline; "MSH|b"]
  /\ str_join "" (split_hl7_messages
                    (" MSH|a" ++ newline ++ "PID|1" ++ newline ++ "MSH|b" ++ newline))
     = "MSH|a" ++ newline ++ "PID|1" ++ newline ++ "MSH|b"
  /\ str_join "" (split_hl7_messages "PID|1") = "MSH|PID|1".
Proof.
  split; [reflexivity|]. split.
  - apply (split_hl7_messages_concat
             (" MSH|a" ++ newline ++ "PID|1" ++ newline ++ "MSH|b" ++ newline)).
    repeat constructor.
  - apply (split_hl7_messages_concat "PID|1"). constructor.
Defined.

(** ** Line breaks and the white space around a message *)

Section LineBreaks.

Variable p : ascii -> bool.

Local Abbreviation norm L := (map strip (filter (fun line => negb (all_space line)) L)).

Lemma all_space_app (x w : string) :
  all_space (x ++ w) = all_space x && all_space w.
Proof.
  induction x as [|a x IH]; simpl; [reflexivity|].
  now rewrite IH, andb_assoc.
Qed.

Lemma rstrip_all_space (w : string) : all_space w = true -> rstrip w = "".
Proof.
  intros H. rewrite <- is_empty_rstrip in H. now destruct (rstrip w).
Qed.

Lemma rstrip_app_space (x w : string) :
  all_space w = true -> rstrip (x ++ w) = rstrip x.
Proof.
  intros Hw. induction x as [|a x IH].
  - simpl. now apply rstrip_all_space.
  - change (String a x ++ w) with (String a (x ++ w)).
    now rewrite !rstrip_cons, IH.
Qed.

Lemma lstrip_app (x w : string) :
  all_space x = false -> lstrip (x ++ w) = lstrip x ++ w.
Proof.
  induction x as [|a x IH]; intros H; [discriminate|].
  simpl in *. destruct (is_space a); [now apply IH|reflexivity].
Qed.

Lemma strip_app_space (x w : string) :
  all_space w = true -> strip (x ++ w) = strip x.
Proof.
  intros Hw. destruct (all_space x) eqn:Hx.
  - rewrite (strip_all_space x Hx). apply strip_all_space.
    now rewrite all_space_app, Hx, Hw.
  - unfold strip. rewrite (lstrip_app _ _ Hx). now apply rstrip_app_space.
Qed.

Lemma split_on_all_space (w : string) :
  all_space w = true -> Forall (fun piece => all_space piece = true) (split_on p w).
Proof.
  induction w as [|a w IH]; intros H; simpl.
  - repeat constructor.
  - simpl in H. apply andb_true_iff in H as [Ha Hw]. specialize (IH Hw).
    destruct (p a); [now constructor|].
    destruct (split_on p w) as [|x xs]; [repeat constructor; simpl; now rewrite Ha|].
    inversion IH; subst. constructor; [simpl; now rewrite Ha|assumption].
Qed.

Lemma norm_all_space (L : list string) :
  Forall (fun piece => all_space piece = true) L -> norm L = [].
Proof.
  induction 1 as [|x L Hx _ IH]; [reflexivity|]. simpl. now rewrite Hx.
Qed.

Lemma norm_cons_app_space (x w : string) (xs xs' : list string) :
  all_space w = true -> norm xs = norm xs' ->
  norm ((x ++ w) :: xs) = norm (x :: xs').
Proof.
  intros Hw Hxs. cbn [filter]. rewrite all_space_app, Hw, andb_true_r.
  destruct (all_space x); cbn [negb map]; [exact Hxs|].
  now rewrite (strip_app_space _ _ Hw), Hxs.
Qed.

(** White space after a text changes the first piece of its split by
    white space, and adds blank pieces. *)
Lemma split_on_app_space (w : string) :
  all_space w = true ->
  forall u, exists x xs x' xs' w0,
    split_on p (u ++ w) = x :: xs /\ split_on p u = x' :: xs'
    /\ x = x' ++ w0 /\ all_space w0 = true /\ norm xs = norm xs'.
Proof.
  intros Hw. induction u as [|a u IH].
  - pose proof (split_on_all_space w Hw) as F.
    simpl. destruct (split_on p w) as [|x xs] eqn:E; [now apply split_on_not_nil in E|].
    inversion F; subst. exists x, xs, "", [], x.
    repeat split; try assumption. now apply norm_all_space.
  - destruct IH as (x & xs & x' & xs' & w0 & E & E' & Hx & Hw0 & Hn).
    change (String a u ++ w) with (String a (u ++ w)). simpl. rewrite E, E'.
    destruct (p a).
    + exists "", (x :: xs), "", (x' :: xs'), "". repeat split.
      subst x. now apply norm_cons_app_space.
    + exists (String a x), xs, (String a x'), xs', w0. repeat split; try assumption.
      now subst x.
Qed.

Lemma norm_split_app_space (u w : string) :
  all_space w = true -> norm (split_on p (u ++ w)) = norm (split_on p u).
Proof.
  intros Hw.
  destruct (split_on_app_space w Hw u) as (x & xs & x' & xs' & w0 & E & E' & Hx & Hw0 & Hn).
  rewrite E, E'. subst x. now apply norm_cons_app_space.
Qed.

Lemma rstrip_decompose (t : string) :
  exists w, all_space w = true /\ t = rstrip t ++ w.
Proof.
  induction t as [|a t (w & Hw & E)]; [now exists ""|].
  rewrite rstrip_cons. destruct (rstrip t) as [|b kept] eqn:Ek.
  - destruct (is_space a) eqn:Ha.
    + exists (String a w). split; [simpl; now rewrite Ha|]. simpl in E. now rewrite <- E.
    + exists w. split; [exact Hw|]. simpl in *. now rewrite <- E.
  - exists w. split; [exact Hw|]. simpl. now rewrite E at 1.
Qed.

Lemma norm_split_rstrip (t : string) :
  norm (split_on p (rstrip t)) = norm (split_on p t).
Proof.
  destruct (rstrip_decompose t) as (w & Hw & E).
  rewrite E at 2. symmetry. now apply norm_split_app_space.
Qed.

Lemma norm_split_lstrip (t : string) :
  norm (split_on p (lstrip t)) = norm (split_on p t).
Proof.
  induction t as [|a t IH]; [reflexivity|].
  simpl lstrip. destruct (is_space a) eqn:Ha; [|reflexivity].
  rewrite IH. simpl split_on. destruct (p a); [reflexivity|].
  destruct (split_on p t) as [|x xs] eqn:E; [now apply split_on_not_nil in E|].
  cbn [filter all_space]. rewrite Ha. cbn [andb].
  destruct (all_space x); cbn [negb map]; [reflexivity|].
  f_equal. unfold strip. simpl lstrip. now rewrite Ha.
Qed.

(** Stripping a text before splitting it changes nothing for the lines
    that are not blank, once stripped. *)
Lemma norm_split_strip (t : string) :
  norm (split_on p (strip t)) = norm (split_on p t).
Proof.
  unfold strip. now rewrite norm_split_rstrip, norm_split_lstrip.
Qed.

Lemma norm_split_seps (sep rest : string) :
  none_of (fun c => negb (p c)) sep = true ->
  norm (split_on p (sep ++ rest)) = norm (split_on p rest).
Proof.
  induction sep as [|c sep IH]; intros H; [reflexivity|].
  simpl in H. apply andb_true_iff in H as [Hc Hsep].
  rewrite negb_involutive in Hc.
  change (String c sep ++ rest) with (String c (sep ++ rest)).
  simpl split_on. rewrite Hc. cbn [filter all_space negb]. now apply IH.
Qed.

Lemma norm_split_join (c : ascii) (sep : string) (lines : list string) :
  none_of (fun c => negb (p c)) (String c sep) = true ->
  Forall (fun line => none_of p line = true) lines ->
  norm (split_on p (str_join (String c sep) lines)) = norm lines.
Proof.
  intros Hsep Hlines. induction Hlines as [|x l Hx Hl IH]; [reflexivity|].
  destruct l as [|y l].
  - simpl str_join. now rewrite (split_on_none _ _ Hx).
  - rewrite str_join_cons.
    change (x ++ String c sep ++ str_join (String c sep) (y :: l))
      with (x ++ String c (sep ++ str_join (String c sep) (y :: l))).
    simpl in Hsep. apply andb_true_iff in Hsep as [Hc Hsep'].
    rewrite negb_involutive in Hc.
    rewrite (split_on_app_sep _ _ _ _ Hx Hc).
    cbn [filter]. destruct (all_space x); cbn [negb map].
    + rewrite (norm_split_seps _ _ Hsep'). apply IH.
    + f_equal. rewrite (norm_split_seps _ _ Hsep'). apply IH.
Qed.

End LineBreaks.

Section AssembleNormal.

Lemma assemble_normal (lines : list string) :
  assemble (map strip (filter (fun line => negb (all_space line)) lines))
  = assemble lines.
Proof.
  unfold assemble. now rewrite for_each_assemble_normal.
Qed.

Lemma assemble_same_normal (lines lines' : list string) :
  map strip (filter (fun line => negb (all_space line)) lines)
  = map strip (filter (fun line => negb (all_space line)) lines') ->
  assemble lines = assemble lines'.
Proof.
  intros H. rewrite <- (assemble_normal lines), <- (assemble_normal lines'). now rewrite H.
Qed.

End AssembleNormal.

(** X7.  The style of the line breaks does not matter, nor does the white
    space around the message: lines without line break, joined by line
    feeds, by carriage returns or by both, are assembled as the lines
    themselves are; and stripping the message before splitting it, as
    [getSegments] does, changes nothing. *)
Theorem hl7_to_custom_json_line_breaks (lines : list string) :
  Forall (fun line => str_contains "013" line = false
                      /\ str_contains "010" line = false) lines ->
  hl7_to_custom_json (str_join (String "010" "") lines) = assemble lines
  /\ hl7_to_custom_json (str_join (String "013" "") lines) = assemble lines
  /\ hl7_to_custom_json (str_join (String "013" (String "010" "")) lines) = assemble lines
  /\ forall msg, hl7_to_custom_json msg
                 = assemble (split_on (fun c => Ascii.eqb c "013" || Ascii.eqb c "010") msg).
Proof.
  intros Hlines.
  set (lb := fun c => Ascii.eqb c "013" || Ascii.eqb c "010").
  assert (Hstrip : forall msg, hl7_to_custom_json msg = assemble (split_on lb msg)).
  { intros msg. unfold hl7_to_custom_json, getSegments. fold lb.
    apply assemble_same_normal. apply norm_split_strip. }
  assert (Hnone : Forall (fun line => none_of lb line = true) lines).
  { eapply Forall_impl; [|exact Hlines]. intros line [Hcr Hlf].
    clear -Hcr Hlf. induction line as [|a line IH]; [reflexivity|].
    simpl in *. apply orb_false_iff in Hcr as [Ha1 H1].
    apply orb_false_iff in Hlf as [Ha2 H2].
    unfold lb at 1. rewrite Ha1, Ha2. simpl. now apply IH. }
  repeat split; try exact Hstrip;
    rewrite Hstrip; apply assemble_same_normal; now apply norm_split_join.
Qed.

Lemma hl7_to_custom_json_line_breaks_witness :
  hl7_to_custom_json ("MSH|^~\&|A" ++ String "013" (String "010" "PID|1"))
  = assemble ["MSH|^~\&|A"; "PID|1"]
  /\ hl7_to_custom_json ("MSH|^~\&|A" ++ String "010" "PID|1")
     = assemble ["MSH|^~\&|A"; "PID|1"].
Proof.
  destruct (hl7_to_custom_json_line_breaks ["MSH|^~\&|A"; "PID|1"]) as (Hlf & _ & Hcrlf & _).
  - repeat constructor.
  - split; [exact Hcrlf|exact Hlf].
Defined.

(** ** The projector: cells, rows and tables *)

Section ProjectorRows.

Lemma str_app_inv_head (a b c : string) : a ++ b = a ++ c -> b = c.
Proof.
  induction a as [|x a IH]; simpl; [trivial|].
  intros [= H]. now apply IH.
Qed.

Lemma dict_set_fresh {V : Type} (k : string) (v : V) (d : list (string * V)) :
  ~ In k (dict_keys d) -> dict_set k v d = (d ++ [(k, v)])%list.
Proof.
  unfold dict_keys. induction d as [|[k0 v0] d IH]; simpl; intros H; [reflexivity|].
  destruct (String.eqb_spec k0 k) as [->|_]; [exfalso; apply H; now left|].
  rewrite IH; [reflexivity|]. intros Hin. apply H. now right.
Qed.

Lemma make_row_fold (name : string) (seg : segment) :
  NoDup (dict_keys seg) ->
  forall r : row,
    (forall k, In k (dict_keys seg) -> ~ In (name ++ "-" ++ k) (dict_keys r)) ->
    fold_left (fun r kv => dict_set (name ++ "-" ++ fst kv) (serialize_field (snd kv)) r)
              seg r
    = List.app r (map (fun kv => (name ++ "-" ++ fst kv, serialize_field (snd kv))) seg).
Proof.
  induction seg as [|[k0 v0] seg IH]; intros Hnd r Hfresh; simpl.
  - now rewrite app_nil_r.
  - inversion Hnd as [|? ? Hk0 Hnd']; subst.
    rewrite dict_set_fresh by (apply Hfresh; now left).
    rewrite IH; [now rewrite <- app_assoc|exact Hnd'|].
    intros k Hk. unfold dict_keys. rewrite map_app, in_app_iff. simpl.
    intros [Hin|[E|[]]].
    + apply (Hfresh k); [now right|exact Hin].
    + apply str_app_inv_head in E. simpl in E. injection E as E.
      subst k. contradiction.
Qed.

Lemma fold_append_list {A : Type} (f : A -> row) (name n : string) (segs : list A) :
  forall tables : list (string * list row),
    dict_list n (fold_left (fun t seg => dict_append name (f seg) t) segs tables)
    = (dict_list n tables ++ if String.eqb name n then map f segs else [])%list.
Proof.
  induction segs as [|seg segs IH]; intros tables; simpl.
  - destruct (String.eqb name n); now rewrite app_nil_r.
  - rewrite IH. unfold dict_list at 1.
    destruct (String.eqb_spec name n) as [->|Hne].
    + rewrite dict_list_append_same. now rewrite <- app_assoc.
    + now rewrite (dict_list_append_other _ _ _ _ Hne).
Qed.

Lemma project_segment_list (schema : list string) (key : pyval) (n : string)
      (tables : list (string * list row)) (item : string * entry) :
  dict_list n (project_segment schema key tables item)
  = (dict_list n tables
     ++ if String.eqb (fst item) n && existsb (String.eqb n) schema
        then map (make_row key n)
                 (match snd item with One seg => [seg] | Many segs => segs end)
        else [])%list.
Proof.
  unfold project_segment.
  destruct (String.eqb_spec (fst item) n) as [->|Hne]; cbn [andb].
  - destruct (existsb (String.eqb n) schema); cbn [negb].
    + rewrite fold_append_list. now rewrite String.eqb_refl.
    + now rewrite app_nil_r.
  - destruct (existsb (String.eqb (fst item)) schema); cbn [negb].
    + rewrite fold_append_list. apply String.eqb_neq in Hne. rewrite Hne.
      reflexivity.
    + now rewrite app_nil_r.
Qed.

Lemma dict_get_not_in {V : Type} (k : string) (d : list (string * V)) :
  ~ In k (dict_keys d) -> dict_get k d = None.
Proof.
  unfold dict_keys. induction d as [|[k0 v0] d IH]; simpl; intros H; [reflexivity|].
  destruct (String.eqb_spec k0 k) as [->|_]; [exfalso; apply H; now left|].
  apply IH. intros Hin. apply H. now right.
Qed.

Lemma project_items_list (schema : list string) (key : pyval) (n : string) (items : message) :
  NoDup (dict_keys items) ->
  forall tables : list (string * list row),
    dict_list n (fold_left (project_segment schema key) items tables)
    = (dict_list n tables
       ++ if existsb (String.eqb n) schema
          then map (make_row key n) (entries_of n items)
          else [])%list.
Proof.
  unfold entries_of.
  induction items as [|[k e] items IH]; intros Hnd tables; simpl.
  - destruct (existsb (String.eqb n) schema); now rewrite app_nil_r.
  - inversion Hnd as [|? ? Hk Hnd']; subst.
    rewrite (IH Hnd'), project_segment_list. cbn [fst snd].
    destruct (String.eqb_spec k n) as [->|Hne]; cbn [andb].
    + rewrite (dict_get_not_in n items Hk).
      destruct (existsb (String.eqb n) schema); cbn [map]; now rewrite !app_nil_r.
    + now rewrite app_nil_r.
Qed.

Lemma convert_tables_rows (schema : list string) (n : string) (msgs : list message) :
  (forall msg, In msg msgs -> NoDup (dict_keys msg)) ->
  forall tables0 tables,
    for_each (project_message schema) msgs tables0 = Returns tables ->
    dict_list n tables = (dict_list n tables0 ++ flat_map (rows_of schema n) msgs)%list.
Proof.
  induction msgs as [|msg msgs IH]; intros Hnd tables0 tables Hrun; simpl in Hrun.
  - injection Hrun as <-. simpl. now rewrite app_nil_r.
  - unfold project_message at 1 in Hrun. simpl flat_map. unfold rows_of at 1.
    destruct (message_id_of msg) as [key|e]; [|discriminate].
    cbn [bind] in Hrun. rewrite (IH (fun m Hm => Hnd m (or_intror Hm)) _ _ Hrun).
    rewrite project_items_list by (apply Hnd; now left).
    now rewrite <- app_assoc.
Qed.

Lemma Forall_dict_set {V : Type} (Q : V -> Prop) (k : string) (v : V)
      (d : list (string * V)) :
  Forall (fun kv => Q (snd kv)) d -> Q v ->
  Forall (fun kv => Q (snd kv)) (dict_set k v d).
Proof.
  intros Hd Hv. induction Hd as [|[k0 v0] d H0 Hd IH]; simpl.
  - now repeat constructor.
  - destruct (String.eqb k0 k); constructor; assumption.
Qed.

Lemma parse_field_str_or_list (field : string) (value : pyval) :
  parse_field field = Returns value ->
  (exists s, value = PStr s) \/ (exists l, value = PList l).
Proof.
  intros H. destruct (str_contains "~" field) eqn:Hr.
  - rewrite (parse_field_repeated _ Hr) in H. injection H as <-. right. eauto.
  - destruct (str_contains "^" field) eqn:Hc.
    + rewrite (parse_field_with_components _ Hr Hc) in H. injection H as <-. right. eauto.
    + destruct (parse_field_one_component _ Hr Hc) as [E _].
      rewrite E in H. injection H as <-. unfold parse_component.
      destruct (str_contains "&" field); [right|left]; eauto.
Qed.

Lemma store_fields_values (fields : list string) :
  forall i seg0 seg,
    store_fields fields i seg0 = Returns seg ->
    Forall (fun kv => (exists s, snd kv = PStr s) \/ (exists l, snd kv = PList l)) seg0 ->
    Forall (fun kv => (exists s, snd kv = PStr s) \/ (exists l, snd kv = PList l)) seg.
Proof.
  induction fields as [|field rest IH]; intros i seg0 seg Hrun H0; simpl in Hrun.
  - now injection Hrun as <-.
  - destruct (is_empty field); [now apply (IH _ _ _ Hrun)|].
    destruct (parse_field field) as [value|] eqn:Hv; [|discriminate].
    cbn [bind] in Hrun. apply (IH _ _ _ Hrun).
    apply (Forall_dict_set (fun v => (exists s, v = PStr s) \/ (exists l, v = PList l)));
      [exact H0|now apply (parse_field_str_or_list field)].
Qed.

Lemma parse_segment_values (line name : string) (seg : segment) :
  parse_segment line = Returns (name, seg) ->
  Forall (fun kv => (exists s, snd kv = PStr s) \/ (exists l, snd kv = PList l)) seg.
Proof.
  unfold parse_segment. intros H.
  destruct (py_index (str_split "|" (strip line)) 0) as [name0|]; [|discriminate].
  cbn [bind] in H. destruct (String.eqb name0 "MSH").
  - destruct (py_index (str_split "|" (strip line)) 1) as [tok|]; [|discriminate].
    cbn [bind] in H.
    destruct (store_fields _ 3 _) as [seg'|] eqn:Hrun; [|discriminate].
    cbn [bind] in H. injection H as _ <-.
    apply (store_fields_values _ _ _ _ Hrun). simpl.
    constructor; [left; eexists; reflexivity|].
    constructor; [left; eexists; reflexivity|constructor].
  - destruct (store_fields _ 1 _) as [seg'|] eqn:Hrun; [|discriminate].
    cbn [bind] in H. injection H as _ <-.
    apply (store_fields_values _ _ _ _ Hrun). constructor.
Qed.

End ProjectorRows.

(** X9.  The row of a segment occurrence is the correlation key followed
    by one cell for each field of the segment, in the order of the fields:
    the cell is named by the segment name, a hyphen and the position, and
    holds the serialized value. *)
Theorem make_row_cells (message_id : pyval) (name : string) (seg : segment) :
  NoDup (dict_keys seg) ->
  make_row message_id name seg
  = ("message_control_id", message_id)
    :: map (fun kv => (name ++ "-" ++ fst kv, serialize_field (snd kv))) seg.
Proof.
  intros Hnd. unfold make_row. rewrite make_row_fold; [reflexivity|exact Hnd|].
  intros k _ [E|[]]. symmetry in E. now apply cell_name_not_key in E.
Qed.

Lemma make_row_cells_witness :
  make_row (PStr "ID1") "PID" [("1", PStr "1"); ("3", PList [PStr "a"; PStr "b"])]
  = [("message_control_id", PStr "ID1"); ("PID-1", PStr "1");
     ("PID-3", PStr (json_dumps (PList [PStr "a"; PStr "b"])))].
Proof.
  apply (make_row_cells (PStr "ID1") "PID"
           [("1", PStr "1"); ("3", PList [PStr "a"; PStr "b"])]).
  repeat constructor; simpl; intuition discriminate.
Defined.

(** X10.  When the projection returns, the table of a segment name holds
    the rows of the messages in the order of the messages, and for each
    message one row for each occurrence of the segment, in the order of the
    occurrences; a name that is not in the schema has no rows. *)
Theorem convert_to_parquet_tables_rows (schema : list string) (msgs : list message)
        (tables : list (string * list row)) :
  (forall msg, In msg msgs -> NoDup (dict_keys msg)) ->
  convert_to_parquet_tables msgs schema = Returns tables ->
  forall name, dict_list name tables = flat_map (rows_of schema name) msgs.
Proof.
  intros Hnd Hrun name.
  now rewrite (convert_tables_rows schema name msgs Hnd [] tables Hrun).
Qed.

Lemma convert_to_parquet_tables_rows_witness :
  dict_list "OBX"
    [("OBX", [[("message_control_id", PStr "A"); ("OBX-1", PStr "1")];
              [("message_control_id", PStr "A"); ("OBX-1", PStr "2")];
              [("message_control_id", PStr "B"); ("OBX-1", PStr "3")]])]
  = flat_map (rows_of ["OBX"] "OBX")
      [[("MSH", One [("10", PStr "A")]);
        ("OBX", Many [[("1", PStr "1")]; [("1", PStr "2")]]); ("PID", One [])];
       [("MSH", One [("10", PStr "B")]); ("OBX", One [("1", PStr "3")])]].
Proof.
  apply (convert_to_parquet_tables_rows ["OBX"]
           [[("MSH", One [("10", PStr "A")]);
             ("OBX", Many [[("1", PStr "1")]; [("1", PStr "2")]]); ("PID", One [])];
            [("MSH", One [("10", PStr "B")]); ("OBX", One [("1", PStr "3")])]]).
  - simpl. intros msg [<-|[<-|[]]]; repeat constructor; simpl; intuition discriminate.
  - reflexivity.
Defined.

(** X12.  Every cell of the row of a parsed segment line holds a string:
    a scalar field as it is and a compound field as its JSON text.  The
    correlation key is the one value that is stored as it was decoded. *)
Theorem projected_cells_are_strings (line name : string) (seg : segment) :
  parse_segment line = Returns (name, seg) ->
  forall message_id table_name column value,
    In (column, value) (make_row message_id table_name seg) ->
    (column = "message_control_id" /\ value = message_id)
    \/ exists s, value = PStr s.
Proof.
  intros Hseg message_id table_name column value Hin.
  pose proof (parse_segment_values _ _ _ Hseg) as Hvalues.
  unfold make_row in Hin.
  assert (G : forall r : row,
             Forall (fun kv => kv = ("message_control_id", message_id)
                               \/ exists s, snd kv = PStr s) r ->
             Forall (fun kv => kv = ("message_control_id", message_id)
                               \/ exists s, snd kv = PStr s)
                    (fold_left
                       (fun r kv => dict_set (table_name ++ "-" ++ fst kv)
                                             (serialize_field (snd kv)) r)
                       seg r)).
  { clear Hin Hseg. induction Hvalues as [|[k v] seg Hv _ IH]; intros r Hr; simpl; [exact Hr|].
    apply IH. clear IH. simpl in Hv.
    assert (Hs : exists s, serialize_field v = PStr s).
    { destruct Hv as [(s & ->)|(l & ->)]; eexists; reflexivity. }
    induction Hr as [|[k0 v0] r H0 Hr IHr]; simpl.
    - constructor; [now right|constructor].
    - destruct (String.eqb k0 _); constructor; try assumption. now right. }
  specialize (G [("message_control_id", message_id)]
                ltac:(constructor; [now left|constructor])).
  rewrite Forall_forall in G. destruct (G _ Hin) as [[= -> ->]|Hs]; [now left|now right].
Qed.

Lemma projected_cells_are_strings_witness :
  parse_segment "PID|1||a&b^c" =
    Returns ("PID", [("1", PStr "1"); ("3", PList [PList [PStr "a"; PStr "b"]; PStr "c"])])
  /\ forall column value,
       In (column, value)
          (make_row (PStr "ID1") "PID"
             [("1", PStr "1"); ("3", PList [PList [PStr "a"; PStr "b"]; PStr "c"])]) ->
       (column = "message_control_id" /\ value = PStr "ID1") \/ exists s, value = PStr s.
Proof.
  split; [reflexivity|].
  exact (projected_cells_are_strings "PID|1||a&b^c" "PID" _ eq_refl (PStr "ID1") "PID").
Defined.

(** ** From the raw text to the tables: what can be raised *)

Section PipelineOutcome.

Lemma assemble_only_index_error (lines : list string) (e : exn) :
  assemble lines = Raises e -> e = IndexError.
Proof.
  intros H. destruct (bare_line_dec lines) as [Hbare|Hnone].
  - unfold assemble in H. rewrite (for_each_assemble_bare lines [] Hbare) in H.
    cbn [bind] in H. congruence.
  - destruct (assemble_returns lines Hnone) as (msg & E). congruence.
Qed.

Lemma assemble_keys_nodup (lines : list string) (msg : message) :
  assemble lines = Returns msg -> NoDup (dict_keys msg).
Proof.
  unfold assemble. intros H.
  destruct (for_each assemble_line lines []) as [result|e] eqn:Hloop; [|discriminate].
  cbn [bind] in H. injection H as <-. rewrite dict_keys_map.
  apply (for_each_assemble_nodup _ _ _ Hloop). constructor.
Qed.

Lemma map_outcome_raises {A B : Type} (f : A -> outcome B) (l : list A) (e : exn) :
  map_outcome f l = Raises e -> exists x, In x l /\ f x = Raises e.
Proof.
  induction l as [|x l IH]; simpl; intros H; [discriminate|].
  destruct (f x) as [y|e0] eqn:Hx; cbn [bind] in H.
  - destruct (map_outcome f l) as [ys|e1]; cbn [bind] in H; [discriminate|].
    injection H as ->. destruct (IH eq_refl) as (x' & Hin & Hx').
    exists x'. split; [now right|exact Hx'].
  - injection H as ->. exists x. split; [now left|exact Hx].
Qed.

Lemma map_outcome_length {A B : Type} (f : A -> outcome B) (l : list A) :
  forall ys, map_outcome f l = Returns ys -> List.length ys = List.length l.
Proof.
  induction l as [|x l IH]; simpl; intros ys H.
  - now injection H as <-.
  - destruct (f x); cbn [bind] in H; [|discriminate].
    destruct (map_outcome f l) as [ys0|]; cbn [bind] in H; [|discriminate].
    injection H as <-. simpl. now rewrite (IH ys0 eq_refl).
Qed.

End PipelineOutcome.

(** X11.  Parsing an input and projecting its messages can raise nothing
    but [IndexError].  When the parsing returns, there is one message for
    each text of the splitter, each message has its header segment once
    and no segment name twice, and the projection returns its tables, for
    every schema. *)
Theorem pipeline_outcome (raw_data : string) (schema : list string) :
  (forall msgs,
      parse_multiple_hl7_messages raw_data = Returns msgs ->
      List.length msgs = List.length (split_hl7_messages raw_data)
      /\ (forall msg, In msg msgs -> single_header msg = true /\ NoDup (dict_keys msg))
      /\ exists tables, convert_to_parquet_tables msgs schema = Returns tables)
  /\ (forall e,
        (msgs <- parse_multiple_hl7_messages raw_data ;;
         convert_to_parquet_tables msgs schema) = Raises e ->
        e = IndexError).
Proof.
  split.
  - intros msgs Hrun. split; [|split].
    + now apply (map_outcome_length hl7_to_custom_json).
    + intros msg Hmsg. split.
      * now apply (parse_multiple_single_header raw_data msgs).
      * destruct (map_outcome_in _ _ _ Hrun msg Hmsg) as (text & _ & Htext).
        now apply (assemble_keys_nodup (getSegments text)).
    + now apply (pipeline_projection_returns raw_data).
  - intros e H.
    destruct (parse_multiple_hl7_messages raw_data) as [msgs|e0] eqn:Hrun; cbn [bind] in H.
    + destruct (pipeline_projection_returns raw_data msgs schema Hrun) as (tables & E).
      congruence.
    + injection H as ->. apply map_outcome_raises in Hrun as (text & _ & Htext).
      now apply (assemble_only_index_error (getSegments text)).
Qed.

Lemma pipeline_outcome_witness :
  (msgs <- parse_multiple_hl7_messages
             ("MSH|^~\&|A|||||||ID1" ++ newline ++ "PID|1" ++ newline
              ++ "MSH|^~\&|B|||||||ID2" ++ newline ++ "PID|2") ;;
   convert_to_parquet_tables msgs ["PID"])
  = Returns [("PID", [[("message_control_id", PStr "ID1"); ("PID-1", PStr "1")];
                      [("message_control_id", PStr "ID2"); ("PID-1", PStr "2")]])]
  /\ (msgs <- parse_multiple_hl7_messages ("MSH|^~\&|A" ++ newline ++ "MSH") ;;
      convert_to_parquet_tables msgs ["PID"])
     = Raises IndexError.
Proof.
  split; [reflexivity|].
  destruct (msgs <- parse_multiple_hl7_messages ("MSH|^~\&|A" ++ newline ++ "MSH") ;;
            convert_to_parquet_tables msgs ["PID"]) as [tables|e] eqn:E.
  - vm_compute in E. discriminate.
  - f_equal. exact (proj2 (pipeline_outcome ("MSH|^~\&|A" ++ newline ++ "MSH") ["PID"]) e E).
Defined.

(** ** The display renderer on decoded fields *)

Section RendererOnFields.

Variable json_loads : string -> option pyval.

(** Joining the pieces with another character replaces the separator. *)
Lemma join_split_replace (c d : ascii) (s : string) :
  str_join (String d EmptyString) (str_split c s) = replace_char c d s.
Proof.
  unfold str_join, str_split.
  induction s as [|a rest IH]; simpl; [reflexivity|].
  rewrite (Ascii.eqb_sym a c). destruct (Ascii.eqb c a) eqn:E.
  - destruct (split_on_cons (Ascii.eqb c) rest) as (x & xs & Hx).
    rewrite Hx in *. simpl. f_equal. exact IH.
  - destruct (split_on (Ascii.eqb c) rest) as [|x xs]; simpl in *.
    + now rewrite <- IH.
    + destruct xs; simpl in *; now rewrite <- IH.
Qed.

Lemma split_replace_other (c d e : ascii) (s : string) :
  c <> e -> d <> e ->
  map (replace_char c d) (split_on (Ascii.eqb e) s)
  = split_on (Ascii.eqb e) (replace_char c d s).
Proof.
  intros Hce Hde. induction s as [|a rest IH]; simpl; [reflexivity|].
  destruct (Ascii.eqb_spec a c) as [->|Hac].
  - apply Ascii.eqb_neq in Hce, Hde.
    rewrite (Ascii.eqb_sym e c), Hce, (Ascii.eqb_sym e d), Hde.
    rewrite <- IH.
    destruct (split_on (Ascii.eqb e) rest); simpl; [|now rewrite Ascii.eqb_refl].
    now rewrite Ascii.eqb_refl.
  - destruct (Ascii.eqb e a) eqn:Hea; simpl; [now rewrite IH|].
    rewrite <- IH. apply Ascii.eqb_neq in Hac.
    destruct (split_on (Ascii.eqb e) rest); simpl; now rewrite Hac.
Qed.

Lemma flatten_subitem_parse_component (comp : string) :
  flatten_subitem (parse_component comp) = comp.
Proof.
  unfold parse_component.
  destruct (str_contains "&" comp); simpl.
  - rewrite map_text_of_PStr. apply join_split.
  - apply text_of_str.
Qed.

(** A repetition renders as its text with the component separators turned
    into sub-component separators. *)
Lemma flatten_item_repetition (rep : string) :
  flatten_item (PList (parse_components rep)) = replace_char "^" "&" rep.
Proof.
  simpl. unfold parse_components. rewrite map_map.
  rewrite <- join_split_replace. f_equal.
  induction (str_split "^" rep) as [|x l IH]; simpl; [reflexivity|].
  now rewrite flatten_subitem_parse_component, IH.
Qed.

End RendererOnFields.

(** X13.  On a decoded field that has repetitions, [flatten_value] lowers
    every separator by one level: the result is the field with its
    component separators turned into sub-component separators and its
    repetition separators turned into component separators. *)
Theorem flatten_value_lowers_separators (json_loads : string -> option pyval) (t : string) :
  str_contains "~" t = true ->
  (v <- parse_field t ;; Returns (flatten_value json_loads v))
  = Returns (replace_char "~" "^" (replace_char "^" "&" t)).
Proof.
  intros Hr. rewrite (parse_field_repeated _ Hr). cbn [bind]. f_equal.
  simpl flatten_value. rewrite map_map.
  rewrite <- join_split_replace. f_equal. unfold str_split.
  rewrite <- split_replace_other by discriminate.
  apply map_ext. intros rep. apply flatten_item_repetition.
Qed.

Lemma flatten_value_lowers_separators_witness :
  (v <- parse_field "ICU^101&A~ER^102" ;; Returns (flatten_value json_loads_plain v))
  = Returns "ICU&101&A^ER&102".
Proof.
  exact (flatten_value_lowers_separators json_loads_plain "ICU^101&A~ER^102" eq_refl).
Defined.

(** X14.  On a decoded field that has repetitions, [format_value_list]
    gives the texts of the repetitions that are not empty, as they were on
    the wire, separated by a comma and a space. *)
Theorem format_value_list_repetitions (json_loads : string -> option pyval) (t : string) :
  str_contains "~" t = true ->
  (v <- parse_field t ;; Returns (format_value_list json_loads v))
  = Returns (str_join ", " (filter (fun rep => negb (is_empty rep)) (str_split "~" t))).
Proof.
  intros Hr. rewrite (parse_field_repeated _ Hr). cbn [bind]. f_equal.
  unfold format_value_list. rewrite map_map. f_equal. f_equal.
  rewrite <- (map_id (str_split "~" t)) at 2.
  apply map_ext. intros rep. apply flatten_value_components.
Qed.

Lemma format_value_list_repetitions_witness :
  (v <- parse_field "ICU^101&A~~ER^102" ;; Returns (format_value_list json_loads_plain v))
  = Returns "ICU^101&A, ER^102".
Proof.
  exact (format_value_list_repetitions json_loads_plain "ICU^101&A~~ER^102" eq_refl).
Defined.

(** ** The template of the channel: the code between the markers *)

Section Template.

Lemma split_on_app_any (p : ascii -> bool) (x : string) (c : ascii) (rest : string) :
  p c = true ->
  split_on p (x ++ String c rest) = (split_on p x ++ split_on p rest)%list.
Proof.
  intros Hc. induction x as [|a x IH]; simpl.
  - now rewrite Hc.
  - rewrite IH. destruct (p a); [reflexivity|].
    destruct (split_on p x) as [|h t] eqn:E; [now apply split_on_not_nil in E|].
    reflexivity.
Qed.

(** Splitting joined texts gives the pieces of each of them. *)
Lemma split_join_flat (c : ascii) (texts : list string) :
  texts <> [] ->
  str_split c (str_join (String c EmptyString) texts) = flat_map (str_split c) texts.
Proof.
  induction texts as [|x l IH]; intros Hne; [contradiction|].
  destruct l as [|y l].
  - simpl. now rewrite app_nil_r.
  - rewrite str_join_cons.
    change (x ++ String c "" ++ str_join (String c "") (y :: l))
      with (x ++ String c (str_join (String c "") (y :: l))).
    unfold str_split at 1. rewrite split_on_app_any by apply Ascii.eqb_refl.
    fold (str_split c x). fold (str_split c (str_join (String c "") (y :: l))).
    rewrite IH by discriminate. reflexivity.
Qed.

Lemma extract_loop_app (js_lines rest : list string) :
  Forall (fun line => occurs "// START_JAVASCRIPT_CODE" line = false
                      /\ occurs "// END_JAVASCRIPT_CODE" line = false) js_lines ->
  extract_loop true (js_lines ++ rest) = (js_lines ++ extract_loop true rest)%list.
Proof.
  induction 1 as [|line l [Hs He] _ IH]; [reflexivity|].
  simpl. now rewrite Hs, He, IH.
Qed.

Lemma extract_replace_loop (js : string) (lines : list string) :
  Forall (fun line => occurs "// START_JAVASCRIPT_CODE" line = false
                      /\ occurs "// END_JAVASCRIPT_CODE" line = false)
         (str_split "010" js) ->
  Forall (fun line => str_contains "010" line = false) lines ->
  forall capture capture',
    (capture = true -> capture' = true) ->
    extract_loop capture (flat_map (str_split "010") (replace_loop js capture' lines))
    = flat_map (fun line => if occurs "// START_JAVASCRIPT_CODE" line
                            then str_split "010" js else []) lines.
Proof.
  intros Hjs Hlines. induction Hlines as [|line rest Hline _ IH]; intros cap cap' Hcap.
  - reflexivity.
  - cbn [replace_loop flat_map].
    destruct (occurs "// START_JAVASCRIPT_CODE" line) eqn:Hs.
    + cbn [flat_map]. rewrite (str_split_none _ _ Hline). cbn [app extract_loop].
      rewrite Hs, extract_loop_app by exact Hjs.
      f_equal. now apply IH.
    + destruct (occurs "// END_JAVASCRIPT_CODE" line) eqn:He.
      * cbn [flat_map]. rewrite (str_split_none _ _ Hline). cbn [app extract_loop].
        rewrite Hs, He. now apply IH.
      * destruct cap'.
        -- now apply IH.
        -- cbn [flat_map]. rewrite (str_split_none _ _ Hline). cbn [app extract_loop].
           rewrite Hs, He.
           destruct cap; [now specialize (Hcap eq_refl)|]. now apply IH.
Qed.

Lemma replace_loop_not_nil (js : string) (line : string) (rest : list string) :
  replace_loop js false (line :: rest) <> [].
Proof.
  simpl. destruct (occurs "// START_JAVASCRIPT_CODE" line); [discriminate|].
  destruct (occurs "// END_JAVASCRIPT_CODE" line); discriminate.
Qed.

Lemma flat_map_once {A B : Type} (f : A -> bool) (J : list B) (l : list A) :
  (List.length (filter f l) <= 1)%nat ->
  flat_map (fun x => if f x then J else []) l
  = if (List.length (filter f l) =? 1)%nat then J else [].
Proof.
  induction l as [|x l IH]; simpl; [reflexivity|].
  destruct (f x); simpl; intros H.
  - rewrite IH by lia. destruct (List.length (filter f l)); [now rewrite app_nil_r|lia].
  - now apply IH.
Qed.

(** What [extract] finds in what [replace] returns. *)
Lemma extract_replace (template js : string) :
  occurs "// START_JAVASCRIPT_CODE" js = false ->
  occurs "// END_JAVASCRIPT_CODE" js = false ->
  extract_javascript_from_template (replace_javascript_in_template template js)
  = str_join newline
      (flat_map (fun line => if occurs "// START_JAVASCRIPT_CODE" line
                             then str_split "010" js else [])
                (str_split "010" template)).
Proof.
  intros Hs He. unfold extract_javascript_from_template, replace_javascript_in_template.
  f_equal.
  destruct (str_split "010" template) as [|line rest] eqn:E;
    [now apply split_on_not_nil in E|].
  change newline with (String "010" "").
  rewrite split_join_flat by apply replace_loop_not_nil.
  apply extract_replace_loop.
  - pose proof (split_on_no_occurrence "// START_JAVASCRIPT_CODE" (Ascii.eqb "010") js
                  ltac:(discriminate) Hs) as F1.
    pose proof (split_on_no_occurrence "// END_JAVASCRIPT_CODE" (Ascii.eqb "010") js
                  ltac:(discriminate) He) as F2.
    rewrite Forall_forall in *. intros l Hl. split; [now apply F1|now apply F2].
  - rewrite <- E. apply Forall_forall. intros l Hl. now apply (str_split_pieces "010" template).
  - trivial.
Qed.

Lemma replace_loop_no_marker (js : string) (lines : list string) :
  Forall (fun line => occurs "// START_JAVASCRIPT_CODE" line = false
                      /\ occurs "// END_JAVASCRIPT_CODE" line = false) lines ->
  replace_loop js false lines = lines /\ extract_loop false lines = [].
Proof.
  induction 1 as [|line l [Hs He] _ [IH1 IH2]]; [now split|].
  simpl. rewrite Hs, He, IH1, IH2. now split.
Qed.

End Template.

(** X15.  What is put between the markers is what is found there: when the
    template has one line with the start marker, and the code holds no
    marker, extracting from the template in which the code was replaced
    gives the code back.  With several start lines the code comes back once
    for each. *)
Theorem extract_after_replace (template js : string) :
  occurs "// START_JAVASCRIPT_CODE" js = false ->
  occurs "// END_JAVASCRIPT_CODE" js = false ->
  (List.length (filter (occurs "// START_JAVASCRIPT_CODE") (str_split "010" template)) = 1%nat ->
   extract_javascript_from_template (replace_javascript_in_template template js) = js)
  /\ extract_javascript_from_template (replace_javascript_in_template template js)
     = str_join newline
         (flat_map (fun line => if occurs "// START_JAVASCRIPT_CODE" line
                                then str_split "010" js else [])
                   (str_split "010" template)).
Proof.
  intros Hs He. split; [|now apply extract_replace].
  intros Hone. rewrite (extract_replace _ _ Hs He).
  rewrite flat_map_once by lia. rewrite Hone. simpl.
  apply (join_split "010" js).
Qed.

Lemma extract_after_replace_witness :
  extract_javascript_from_template
    (replace_javascript_in_template
       ("<a>" ++ newline ++ "// START_JAVASCRIPT_CODE" ++ newline ++ "old();" ++ newline
        ++ "// END_JAVASCRIPT_CODE" ++ newline ++ "</a>")
       ("x = 1;" ++ newline ++ "y = 2;"))
  = "x = 1;" ++ newline ++ "y = 2;"
  /\ replace_javascript_in_template
       ("<a>" ++ newline ++ "// START_JAVASCRIPT_CODE" ++ newline ++ "old();" ++ newline
        ++ "// END_JAVASCRIPT_CODE" ++ newline ++ "</a>")
       ("x = 1;" ++ newline ++ "y = 2;")
     = "<a>" ++ newline ++ "// START_JAVASCRIPT_CODE" ++ newline ++ "x = 1;" ++ newline
       ++ "y = 2;" ++ newline ++ "// END_JAVASCRIPT_CODE" ++ newline ++ "</a>".
Proof.
  split; [|reflexivity].
  apply (proj1 (extract_after_replace
                  ("<a>" ++ newline ++ "// START_JAVASCRIPT_CODE" ++ newline ++ "old();"
                   ++ newline ++ "// END_JAVASCRIPT_CODE" ++ newline ++ "</a>")
                  ("x = 1;" ++ newline ++ "y = 2;") eq_refl eq_refl)).
  reflexivity.
Defined.

(** X16.  A template without markers is left as it is by the replacement,
    which raises nothing and drops the new code, and nothing is extracted
    from it. *)
Theorem template_without_markers (template js : string) :
  occurs "// START_JAVASCRIPT_CODE" template = false ->
  occurs "// END_JAVASCRIPT_CODE" template = false ->
  replace_javascript_in_template template js = template
  /\ extract_javascript_from_template template = "".
Proof.
  intros Hs He.
  pose proof (split_on_no_occurrence "// START_JAVASCRIPT_CODE" (Ascii.eqb "010") template
                ltac:(discriminate) Hs) as F1.
  pose proof (split_on_no_occurrence "// END_JAVASCRIPT_CODE" (Ascii.eqb "010") template
                ltac:(discriminate) He) as F2.
  destruct (replace_loop_no_marker js (str_split "010" template)) as [E1 E2].
  { rewrite Forall_forall in *. intros l Hl. split; [now apply F1|now apply F2]. }
  unfold replace_javascript_in_template, extract_javascript_from_template.
  rewrite E1, E2. split; [apply (join_split "010" template)|reflexivity].
Qed.

Lemma template_without_markers_witness :
  replace_javascript_in_template ("<a>" ++ newline ++ "</a>") "x = 1;"
  = "<a>" ++ newline ++ "</a>".
Proof.
  exact (proj1 (template_without_markers ("<a>" ++ newline ++ "</a>") "x = 1;"
                  eq_refl eq_refl)).
Defined.

(** ** A stored cell, rendered for display *)

Section StoredCell.

Variable json_loads : string -> option pyval.

Lemma rstrip_end (x : string) (c : ascii) :
  is_space c = false -> rstrip (x ++ String c "") = x ++ String c "".
Proof.
  intros Hc. induction x as [|a x IH].
  - simpl. now rewrite Hc.
  - change (String a x ++ String c "") with (String a (x ++ String c "")).
    rewrite rstrip_cons, IH. now destruct x.
Qed.

Lemma endswith_app (x p : string) : endswith (x ++ p) p = true.
Proof.
  induction x as [|a x IH].
  - destruct p; simpl; now rewrite ?Ascii.eqb_refl, ?String.eqb_refl.
  - change (String a x ++ p) with (String a (x ++ p)).
    cbn [endswith]. rewrite IH. apply orb_true_r.
Qed.

Lemma looks_like_json_array_brackets (body : string) :
  looks_like_json_array ("[" ++ body ++ "]") = true.
Proof.
  unfold looks_like_json_array, strip.
  change (lstrip ("[" ++ body ++ "]")) with (String "[" (body ++ "]")).
  change (String "[" (body ++ "]")) with (String "[" body ++ String "]" "").
  rewrite rstrip_end by reflexivity.
  rewrite endswith_app, andb_true_r. unfold startswith.
  change (String "[" body ++ String "]" "") with (String "[" (body ++ "]")).
  now rewrite prefix_cons, prefix_nil.
Qed.

(** A compound value that was serialized renders as the value does, as
    long as [json.loads] reads back what [json.dumps] wrote. *)
Lemma flatten_value_serialized (items : list pyval) :
  json_loads (json_dumps (PList items)) = Some (PList items) ->
  flatten_value json_loads (serialize_field (PList items))
  = flatten_value json_loads (PList items).
Proof.
  intros H. cbn [serialize_field flatten_value].
  rewrite H.
  change (json_dumps (PList items))
    with ("[" ++ str_join ", " (map json_dumps items) ++ "]").
  now rewrite looks_like_json_array_brackets.
Qed.

End StoredCell.

(** X19.  The cell that the projector stores for a field with components
    is rendered by [flatten_value] as the text of the field on the wire,
    when [json.loads] reads back the JSON text that [json.dumps] wrote for
    the decoded field. *)
Theorem stored_cell_renders_field (json_loads : string -> option pyval) (t : string) :
  str_contains "~" t = false ->
  str_contains "^" t = true ->
  json_loads (json_dumps (PList (parse_components t))) = Some (PList (parse_components t)) ->
  (v <- parse_field t ;; Returns (flatten_value json_loads (serialize_field v)))
  = Returns t.
Proof.
  intros Hr Hc Hjson. rewrite (parse_field_with_components _ Hr Hc). cbn [bind].
  rewrite (flatten_value_serialized json_loads _ Hjson).
  now rewrite flatten_value_components.
Qed.

Lemma stored_cell_renders_field_witness :
  (v <- parse_field "ICU^101^HospitalA" ;; Returns (serialize_field v))
  = Returns (PStr (json_dumps (PList [PStr "ICU"; PStr "101"; PStr "HospitalA"])))
  /\ (v <- parse_field "ICU^101^HospitalA" ;;
      Returns (flatten_value json_loads_plain (serialize_field v)))
     = Returns "ICU^101^HospitalA".
Proof.
  split; [reflexivity|].
  apply (stored_cell_renders_field json_loads_plain "ICU^101^HospitalA");
    reflexivity.
Defined.

(** ** The indentation of the generated code *)

Section Indentation.

Lemma flat_map_str_app (f : ascii -> string) (a b : string) :
  flat_map_str f (a ++ b) = flat_map_str f a ++ flat_map_str f b.
Proof.
  induction a as [|x a IH]; simpl; [reflexivity|].
  now rewrite IH, str_app_assoc.
Qed.

Lemma escape_join (lines : list string) :
  escape_apostrophes (str_join newline lines)
  = str_join newline (map escape_apostrophes lines).
Proof.
  unfold escape_apostrophes. induction lines as [|x l IH]; [reflexivity|].
  destruct l as [|y l]; [reflexivity|].
  rewrite str_join_cons, !flat_map_str_app, IH. reflexivity.
Qed.

Lemma escape_keeps_absent (c : ascii) (s : string) :
  str_contains c "&apos;" = false ->
  str_contains c s = false ->
  str_contains c (escape_apostrophes s) = false.
Proof.
  intros Hc. unfold escape_apostrophes.
  induction s as [|a s IH]; simpl; [trivial|].
  intros H. apply orb_false_iff in H as [Ha Hs].
  rewrite str_contains_append, (IH Hs), orb_false_r.
  destruct (Ascii.eqb a single_quote); [exact Hc|]. simpl. now rewrite Ha.
Qed.

Lemma escape_no_apostrophe (s : string) :
  str_contains single_quote (escape_apostrophes s) = false.
Proof.
  unfold escape_apostrophes. induction s as [|a s IH]; simpl; [reflexivity|].
  rewrite str_contains_append, IH, orb_false_r.
  destruct (Ascii.eqb a single_quote) eqn:E; [reflexivity|]. simpl. now rewrite E.
Qed.

Lemma escape_repeat_spaces (k : nat) (s : string) :
  escape_apostrophes (repeat_str "  " k ++ s) = repeat_str "  " k ++ escape_apostrophes s.
Proof.
  induction k as [|k IH]; [reflexivity|].
  change (repeat_str "  " (S k) ++ s)
    with (String " " (String " " (repeat_str "  " k ++ s))).
  change (repeat_str "  " (S k) ++ escape_apostrophes s)
    with (String " " (String " " (repeat_str "  " k ++ escape_apostrophes s))).
  rewrite <- IH. reflexivity.
Qed.

Lemma str_contains_occurs (c : ascii) (s : string) :
  str_contains c s = occurs (String c "") s.
Proof.
  induction s as [|a s IH]; [reflexivity|].
  cbn [str_contains occurs]. rewrite prefix_cons, prefix_nil, andb_true_r, IH.
  now rewrite (Ascii.eqb_sym a c).
Qed.

Lemma str_contains_strip (c : ascii) (s : string) :
  str_contains c s = false -> str_contains c (strip s) = false.
Proof.
  rewrite !str_contains_occurs. intros H.
  destruct (occurs (String c "") (strip s)) eqn:E; [|reflexivity].
  apply occurs_strip in E. congruence.
Qed.

Lemma str_contains_repeat_spaces (c : ascii) (k : nat) :
  str_contains c "  " = false -> str_contains c (repeat_str "  " k) = false.
Proof.
  intros H. induction k as [|k IH]; [reflexivity|].
  change (repeat_str "  " (S k)) with (String " " (String " " (repeat_str "  " k))).
  cbn [str_contains] in *. destruct (Ascii.eqb " " c); [discriminate|exact IH].
Qed.

(** The lines of [indent_loop], one for each line it is given. *)
Lemma indent_loop_lines (lines : list string) :
  forall level, (0 <= level)%Z ->
    Forall2 (fun line out =>
               if all_space line then out = ""
               else exists k, (1 <= k)%nat /\ out = repeat_str "  " k ++ strip line)
            lines (indent_loop level lines).
Proof.
  induction lines as [|line rest IH]; intros level Hlevel; [constructor|].
  cbn [indent_loop]. rewrite is_empty_strip.
  destruct (all_space line) eqn:Hblank.
  - constructor; [now rewrite Hblank|now apply IH].
  - destruct (startswith (strip line) "//").
    + constructor; [|now apply IH].
      rewrite Hblank. exists (Z.to_nat (1 + level)). split; [lia|reflexivity].
    + constructor.
      * rewrite Hblank.
        exists (Z.to_nat (1 + (if startswith (strip line) "}"
                               then Z.max 0 (level - 1) else level))).
        split; [|reflexivity]. destruct (startswith (strip line) "}"); lia.
      * apply IH.
        destruct (startswith (strip line) "}"), (endswith (strip line) "{"); lia.
Qed.

Lemma indent_loop_no_newline (lines : list string) :
  Forall (fun line => str_contains "010" line = false) lines ->
  forall level, (0 <= level)%Z ->
    Forall (fun out => str_contains "010" out = false) (indent_loop level lines).
Proof.
  intros Hlines level Hlevel.
  pose proof (indent_loop_lines lines level Hlevel) as F.
  induction F as [|line out rest outs Hout _ IH]; [constructor|].
  inversion Hlines; subst. constructor; [|now apply IH].
  destruct (all_space line); [now subst out|].
  destruct Hout as (k & _ & ->). rewrite str_contains_append.
  rewrite str_contains_repeat_spaces by reflexivity.
  now rewrite str_contains_strip.
Qed.

End Indentation.

(** X17.  [indent_js_code] keeps the lines and changes only the white space
    around them and the apostrophes.  The result has no apostrophe and one
    line for each line of the code: the empty line for a blank line, and
    otherwise the stripped line with its apostrophes escaped, after an
    indentation of two spaces or more, in steps of two. *)
Theorem indent_js_code_lines (js_code : string) :
  str_contains single_quote (indent_js_code js_code) = false
  /\ Forall2 (fun line out =>
                if all_space line then out = ""
                else exists k, (1 <= k)%nat
                               /\ out = repeat_str "  " k ++ escape_apostrophes (strip line))
             (str_split "010" js_code)
             (str_split "010" (indent_js_code js_code)).
Proof.
  split; [apply escape_no_apostrophe|].
  unfold indent_js_code. rewrite escape_join.
  assert (Hlines : Forall (fun line => str_contains "010" line = false)
                          (str_split "010" js_code)).
  { apply Forall_forall. intros l Hl. now apply (str_split_pieces "010" js_code). }
  pose proof (indent_loop_lines (str_split "010" js_code) 0 ltac:(lia)) as F.
  pose proof (indent_loop_no_newline _ Hlines 0%Z ltac:(lia)) as Hout.
  change newline with (String "010" "").
  rewrite split_join.
  - clear Hlines Hout. induction F as [|line out rest outs H _ IH]; [constructor|].
    cbn [map]. constructor; [|exact IH].
    destruct (all_space line); [now subst out|].
    destruct H as (k & Hk & ->). exists k. split; [exact Hk|].
    apply escape_repeat_spaces.
  - intros Hnil. apply map_eq_nil in Hnil. rewrite Hnil in F.
    inversion F as [E|]. symmetry in E. now apply split_on_not_nil in E.
  - apply Forall_forall. intros l Hl. apply in_map_iff in Hl as (out & <- & Hin).
    rewrite Forall_forall in Hout. apply escape_keeps_absent; [reflexivity|now apply Hout].
Qed.

Lemma indent_js_code_example :
  indent_js_code ("if (a) {" ++ newline ++ "x = 'b';" ++ newline ++ newline ++ "}"
                  ++ newline ++ "// done")
  = "  if (a) {" ++ newline ++ "    x = &apos;b&apos;;" ++ newline ++ newline ++ "  }"
    ++ newline ++ "  // done".
Proof. reflexivity. Qed.

(** ** The canonical field reference *)

Section CanonicalCode.

Lemma split_on_length (c : ascii) (s : string) :
  List.length (str_split c s) = S (count_char c s).
Proof.
  unfold str_split. induction s as [|a s IH]; [reflexivity|].
  simpl. rewrite (Ascii.eqb_sym c a). destruct (Ascii.eqb a c); simpl.
  - now rewrite IH.
  - destruct (split_on (Ascii.eqb c) s); simpl in *; [discriminate|exact IH].
Qed.

End CanonicalCode.

(** X18.  [get_canonical_js_code] raises [ValueError] exactly when the field
    identifier does not have one hyphen, and never [IndexError]; without a
    component number the component is 1, so that [SEG-F] and [SEG-F.1] give
    the same reference. *)
Theorem get_canonical_js_code_outcome :
  (forall field_id,
      (get_canonical_js_code field_id = JsValueError <-> count_char "-" field_id <> 1%nat)
      /\ get_canonical_js_code field_id <> JsIndexError)
  /\ (forall segment field,
        str_contains "-" segment = false ->
        str_contains "-" field = false ->
        str_contains "." field = false ->
        get_canonical_js_code (segment ++ "-" ++ field)
        = JsCode ("tmp['" ++ segment ++ "']['" ++ segment ++ "." ++ field
                  ++ "']['" ++ segment ++ "." ++ field ++ ".1']")
        /\ get_canonical_js_code (segment ++ "-" ++ field ++ ".1")
           = get_canonical_js_code (segment ++ "-" ++ field)).
Proof.
  split.
  - intros field_id. unfold get_canonical_js_code.
    pose proof (split_on_length "-" field_id) as Hlen.
    destruct (str_split "-" field_id) as [|segment [|path [|x l]]]; simpl in Hlen.
    + discriminate.
    + split; [split; [intros _; lia|reflexivity]|discriminate].
    + destruct (split_on_cons (Ascii.eqb ".") path) as (field & rest & E).
      unfold str_split. rewrite E. cbn [nth_error].
      destruct rest as [|sub rest]; cbn [List.length Nat.ltb Nat.leb nth_error];
        (split; [split; [discriminate|intros H; lia]|discriminate]).
    + split; [split; [intros _; lia|reflexivity]|discriminate].
  - intros segment field Hs Hf Hdot.
    assert (E1 : str_split "-" (segment ++ "-" ++ field) = [segment; field]).
    { apply (split_join "-" [segment; field]); [discriminate|].
      repeat constructor; assumption. }
    assert (E2 : str_split "-" (segment ++ "-" ++ field ++ ".1") = [segment; field ++ ".1"]).
    { apply (split_join "-" [segment; field ++ ".1"]); [discriminate|].
      repeat constructor; [assumption|].
      now rewrite str_contains_append, Hf. }
    assert (E3 : str_split "." (field ++ ".1") = [field; "1"]).
    { apply (split_join "." [field; "1"]); [discriminate|].
      repeat constructor; assumption. }
    unfold get_canonical_js_code. rewrite E1, E2, E3, (str_split_none _ _ Hdot).
    split; reflexivity.
Qed.

Lemma get_canonical_js_code_outcome_witness :
  get_canonical_js_code "PID-5" = JsCode "tmp['PID']['PID.5']['PID.5.1']"
  /\ get_canonical_js_code "PID5" = JsValueError.
Proof.
  destruct get_canonical_js_code_outcome as [Herr Hcode].
  split.
  - apply (proj1 (Hcode "PID" "5" eq_refl eq_refl eq_refl)).
  - apply (proj1 (Herr "PID5")). vm_compute. discriminate.
Defined.

(** X20.  On a decoded field that has sub-components and no component
    separator, [flatten_value] gives the field with its sub-component
    separators turned into component separators: the decoder has collapsed
    the one component, and the renderer joins the list it finds with the
    component separator. *)
Theorem flatten_value_raises_subcomponents (json_loads : string -> option pyval)
        (t : string) :
  str_contains "~" t = false ->
  str_contains "^" t = false ->
  str_contains "&" t = true ->
  (v <- parse_field t ;; Returns (flatten_value json_loads v))
  = Returns (replace_char "&" "^" t).
Proof.
  intros Hr Hc Hs. destruct (parse_field_one_component _ Hr Hc) as [E _].
  rewrite E. unfold parse_component. rewrite Hs. cbn [bind]. f_equal.
  simpl flatten_value. rewrite <- join_split_replace. f_equal.
  induction (str_split "&" t) as [|x l IH]; simpl; [reflexivity|].
  now rewrite text_of_str, IH.
Qed.

Lemma flatten_value_raises_subcomponents_witness :
  (v <- parse_field "LN&GLU&1234" ;; Returns (flatten_value json_loads_plain v))
  = Returns "LN^GLU^1234".
Proof.
  exact (flatten_value_raises_subcomponents json_loads_plain "LN&GLU&1234"
           eq_refl eq_refl eq_refl).
Defined.
